(** * Jadwal-Sholat: the next-prayer selector and the Qibla compass

    A shallow embedding of two pieces of the dashboard:
    - [markNextPrayer] of [src/App.tsx], which flags the next prayer of a
      day's schedule;
    - [calculateQibla] and [handleOrientation] of the [QiblaCompass]
      component, which compute the bearing and distance to the Kaaba and
      filter the device heading.

    JavaScript numbers are IEEE doubles.  The selector only ever combines
    small integers, on which double arithmetic is exact, so its numbers are
    modelled by [number] (an integer, an infinity or NaN).  The compass
    works on angles; there the doubles are read as exact real numbers and
    rounding is not modelled.  The properties stated of the compass and of
    the times of the night are kept to inputs on which the rounding cannot
    change them: whole degrees, a margin around a boundary, time values
    below 2^51.

    Further parts follow the same conventions: the life of the compass
    component (opening, permission, registration of the handler), and, of
    [services/geminiService.ts] and [services/weatherService.ts], the
    schedule that is built, the times of the night, the retry loop around
    the request, the conversion of Arabic-Indic digits and the weather
    codes. *)

From Stdlib Require Import ZArith List String Ascii Bool Lia.
From Stdlib Require Import Reals Lra Machin.
Import ListNotations.

(** ** JavaScript numbers, as far as the selector uses them *)

Module JsNumber.

Inductive number : Type :=
| NaN
| NegInfinity
| Fin (z : Z)
| Infinity.

Definition add (a b : number) : number :=
  match a, b with
  | NaN, _ | _, NaN => NaN
  | Fin x, Fin y => Fin (x + y)
  | Infinity, NegInfinity | NegInfinity, Infinity => NaN
  | Infinity, _ | _, Infinity => Infinity
  | NegInfinity, _ | _, NegInfinity => NegInfinity
  end.

Definition neg (a : number) : number :=
  match a with
  | NaN => NaN
  | NegInfinity => Infinity
  | Fin x => Fin (- x)
  | Infinity => NegInfinity
  end.

Definition sub (a b : number) : number := add a (neg b).

Definition sgn (a : number) : Z :=
  match a with
  | NaN => 0
  | NegInfinity => -1
  | Fin x => Z.sgn x
  | Infinity => 1
  end.

Definition mul (a b : number) : number :=
  match a, b with
  | NaN, _ | _, NaN => NaN
  | Fin x, Fin y => Fin (x * y)
  | _, _ =>
      match (sgn a * sgn b)%Z with
      | Z0 => NaN
      | Zpos _ => Infinity
      | Zneg _ => NegInfinity
      end
  end.

(** [a < b]; every comparison with NaN is false. *)
Definition lt (a b : number) : bool :=
  match a, b with
  | NaN, _ | _, NaN => false
  | Fin x, Fin y => (x <? y)%Z
  | NegInfinity, NegInfinity => false
  | NegInfinity, _ => true
  | _, NegInfinity => false
  | Infinity, _ => false
  | _, Infinity => true
  end.

Definition gt (a b : number) : bool := lt b a.

End JsNumber.

(** ** Strings *)

Module JsString.

Definition is_digit (c : ascii) : bool :=
  let n := nat_of_ascii c in (48 <=? n)%nat && (n <=? 57)%nat.

Definition digit_value (c : ascii) : Z := Z.of_nat (nat_of_ascii c) - 48.

Fixpoint all_digits (s : string) : bool :=
  match s with
  | EmptyString => true
  | String c s' => is_digit c && all_digits s'
  end.

Fixpoint decimal_value (acc : Z) (s : string) : Z :=
  match s with
  | EmptyString => acc
  | String c s' => decimal_value (10 * acc + digit_value c) s'
  end.

(** [Number(s)] on the alphabet of an [HH:mm] field: the empty string is 0
    and a run of decimal digits is its value.  The other literal forms that
    [Number] accepts (signs, fractions, exponents, radix prefixes, blanks
    around the digits, [Infinity]) do not occur in a schedule and are read
    as NaN here, as every other text is. *)
Definition Number (s : string) : JsNumber.number :=
  if all_digits s then JsNumber.Fin (decimal_value 0 s) else JsNumber.NaN.

(** [s.split(':')]; [cur] is the field read so far. *)
Fixpoint split_colon_aux (cur : string) (s : string) : list string :=
  match s with
  | EmptyString => [cur]
  | String c s' =>
      if Ascii.eqb c ":"%char
      then cur :: split_colon_aux EmptyString s'
      else split_colon_aux (cur ++ String c EmptyString) s'
  end.

Definition split_colon (s : string) : list string :=
  split_colon_aux EmptyString s.

(** [s.includes(sub)]. *)
Fixpoint includes (s sub : string) : bool :=
  String.prefix sub s
  || match s with
     | EmptyString => false
     | String _ s' => includes s' sub
     end.

Definition lower_ascii (c : ascii) : ascii :=
  let n := nat_of_ascii c in
  if (65 <=? n)%nat && (n <=? 90)%nat then ascii_of_nat (n + 32) else c.

(** [s.toLowerCase()] on the ASCII letters.  No character outside ASCII
    lower-cases to one of the letters of [maghrib], so the comparison made
    with the result is the same. *)
Fixpoint toLowerCase (s : string) : string :=
  match s with
  | EmptyString => EmptyString
  | String c s' => String (lower_ascii c) (toLowerCase s')
  end.

End JsString.

(** ** The next-prayer selector ([src/App.tsx]) *)

Module App.
Import JsNumber JsString.
Local Open Scope string_scope.
Local Open Scope Z_scope.

(** [types.ts]; an optional field that is not set is [None]. *)
Record PrayerTime : Type := mkPrayerTime {
  name : string;
  nameArabic : string;
  time : string;            (* HH:mm format (24h) *)
  isNext : option bool
}.

Record HijriDateInfo : Type := mkHijriDateInfo {
  day : Z;
  month : string;
  year : Z;
  dayNameArabic : string;
  fullString : string
}.

Record DailyData : Type := mkDailyData {
  gregorianDate : string;
  hijri : HijriDateInfo;
  prayers : list PrayerTime;
  city : string;
  timezone : option string;
  quote : option string
}.

(** What [markNextPrayer] reads of a [Date]. *)
Record Date : Type := mkDate {
  toDateString : string;
  getHours : Z;
  getMinutes : Z
}.

(** [{ ...p, isNext: b }] and [{ ...data, prayers: ps }]. *)
Definition with_isNext (p : PrayerTime) (b : bool) : PrayerTime :=
  {| name := name p; nameArabic := nameArabic p; time := time p;
     isNext := Some b |}.

Definition with_prayers (data : DailyData) (ps : list PrayerTime) : DailyData :=
  {| gregorianDate := gregorianDate data; hijri := hijri data; prayers := ps;
     city := city data; timezone := timezone data; quote := quote data |}.

(** [const [h, m] = t.split(':').map(Number); h * 60 + m].  A field that
    is missing is [undefined], and the sum is NaN. *)
Definition timeMinutes (t : string) : number :=
  match map Number (split_colon t) with
  | h :: m :: _ => add (mul h (Fin 60)) m
  | _ => NaN
  end.

Definition isMaghrib (p : PrayerTime) : bool :=
  String.eqb (toLowerCase (name p)) "maghrib"
  || includes (nameArabic p) "المغرب".

Definition maghribMinutes (ps : list PrayerTime) : number :=
  match find isMaghrib ps with
  | Some maghrib => timeMinutes (time maghrib)
  | None => Fin (18 * 60)
  end.

Definition isNightPrayer (p : PrayerTime) : bool :=
  existsb (String.eqb (name p)) ["Midnight"; "LastThird"; "Isha"]
  || existsb (fun n => includes (nameArabic p) n)
       ["نصف الليل"; "الثلث الأخير"; "العشاء"].

(** The value of [prayerMinutes] when the loop body compares it. *)
Definition prayerMinutes (maghribMinutes : number) (p : PrayerTime) : number :=
  let prayerMinutes := timeMinutes (time p) in
  if isNightPrayer p && lt prayerMinutes maghribMinutes
  then add prayerMinutes (Fin (24 * 60))
  else prayerMinutes.

(** The two variables the loop assigns. *)
Record Scan : Type := mkScan {
  nextPrayerIndex : Z;
  minDiff : number
}.

Definition visit (maghribMinutes currentMinutes : number)
    (st : Scan) (p : PrayerTime) (idx : Z) : Scan :=
  let prayerMinutes := prayerMinutes maghribMinutes p in
  if gt prayerMinutes currentMinutes then
    let diff := sub prayerMinutes currentMinutes in
    if lt diff (minDiff st)
    then {| nextPrayerIndex := idx; minDiff := diff |}
    else st
  else st.

(** [l.forEach((x, idx) => ...)] with the assigned variables threaded
    through, and [l.map((x, idx) => ...)]; [idx] is the index of the head. *)
Fixpoint forEach {A S : Type} (f : S -> A -> Z -> S) (idx : Z) (l : list A)
    (st : S) : S :=
  match l with
  | [] => st
  | x :: l' => forEach f (idx + 1) l' (f st x idx)
  end.

Fixpoint mapi {A B : Type} (f : A -> Z -> B) (idx : Z) (l : list A) : list B :=
  match l with
  | [] => []
  | x :: l' => f x idx :: mapi f (idx + 1) l'
  end.

Definition isToday (targetDate now : Date) : bool :=
  String.eqb (toDateString targetDate) (toDateString now).

Definition currentMinutes (now : Date) : number :=
  Fin (getHours now * 60 + getMinutes now).

Definition scanPrayers (ps : list PrayerTime) (now : Date) : Scan :=
  forEach (visit (maghribMinutes ps) (currentMinutes now)) 0 ps
    {| nextPrayerIndex := -1; minDiff := Infinity |}.

(** The index flagged in the end: [if (nextPrayerIndex === -1) nextPrayerIndex = 0]. *)
Definition selectedIndex (ps : list PrayerTime) (now : Date) : Z :=
  let nextPrayerIndex := nextPrayerIndex (scanPrayers ps now) in
  if nextPrayerIndex =? -1 then 0 else nextPrayerIndex.

(** [now] stands for the [new Date()] the function reads. *)
Definition markNextPrayer (data : DailyData) (targetDate now : Date) : DailyData :=
  if negb (isToday targetDate now) then
    with_prayers data (map (fun p => with_isNext p false) (prayers data))
  else
    let nextPrayerIndex := selectedIndex (prayers data) now in
    let updatedPrayers :=
      mapi (fun p idx => with_isNext p (idx =? nextPrayerIndex)) 0
        (prayers data) in
    with_prayers data updatedPrayers.

(** Entries flagged as next. *)
Definition flagged (p : PrayerTime) : bool :=
  match isNext p with Some true => true | _ => false end.

Definition countNext (ps : list PrayerTime) : nat :=
  List.length (filter flagged ps).

End App.

(** ** The Qibla compass ([QiblaCompass] component) *)

Module QiblaCompass.
Local Open Scope R_scope.

(** *** [Math] on exact reals *)

(** [Math.atan2(y, x)], in (-PI, PI]; the reals have one zero, so the
    results that JavaScript gives for a negative zero do not arise. *)
Definition Math_atan2 (y x : R) : R :=
  if Rlt_dec 0 x then atan (y / x)
  else if Rlt_dec x 0 then
    if Rle_dec 0 y then atan (y / x) + PI else atan (y / x) - PI
  else if Rlt_dec 0 y then PI / 2
  else if Rlt_dec y 0 then - (PI / 2)
  else 0.

(** [Math.sqrt(x)]; NaN, the result on a negative number, is [None]. *)
Definition Math_sqrt (x : R) : option R :=
  if Rlt_dec x 0 then None else Some (sqrt x).

(** [Math.round(x)]: the nearest integer, a half going up. *)
Definition Math_round (x : R) : R := IZR (Int_part (x + / 2)).

(** The integer part of [x], rounding toward zero. *)
Definition truncate (x : R) : Z :=
  if Rlt_dec x 0 then (- Int_part (- x))%Z else Int_part x.

(** [x % y]: the remainder has the sign of [x]. *)
Definition remainder (x y : R) : R := x - y * IZR (truncate (x / y)).

(** *** [calculateQibla] *)

Definition KAABA_LAT : R := 21422487 / 1000000.
Definition KAABA_LNG : R := 39826206 / 1000000.

Definition toRad (deg : R) : R := (deg * PI) / 180.
Definition toDeg (rad : R) : R := (rad * 180) / PI.

(** What the component stores: [setQiblaBearing] and [setDistance]; a
    distance of [None] is NaN. *)
Record Qibla : Type := mkQibla {
  qiblaBearing : R;
  distance : option R
}.

(** The body of [calculateQibla], with the target coordinate as a
    parameter. *)
Definition computeQibla (lat lng targetLat targetLng : R) : Qibla :=
  let phi1 := toRad lat in
  let phi2 := toRad targetLat in
  let deltaLambda := toRad (targetLng - lng) in
  let lambda1 := toRad lng in
  let lambda2 := toRad targetLng in
  (* 1. bearing *)
  let y := sin deltaLambda * cos phi2 in
  let x := cos phi1 * sin phi2 - sin phi1 * cos phi2 * cos deltaLambda in
  let bearing := toDeg (Math_atan2 y x) in
  let bearing := remainder (bearing + 360) 360 in
  (* 2. distance, haversine formula *)
  let R := 6371 in
  let dLat := phi2 - phi1 in
  let dLon := lambda2 - lambda1 in
  let a :=
    sin (dLat / 2) * sin (dLat / 2) +
    cos phi1 * cos phi2 * sin (dLon / 2) * sin (dLon / 2) in
  let d :=
    match Math_sqrt a, Math_sqrt (1 - a) with
    | Some sa, Some sb =>
        let c := 2 * Math_atan2 sa sb in
        Some (Math_round (R * c))
    | _, _ => None
    end in
  {| qiblaBearing := bearing; distance := d |}.

Definition calculateQibla (lat lng : R) : Qibla :=
  computeQibla lat lng KAABA_LAT KAABA_LNG.

(** *** [handleOrientation] *)

(** The fields of a device-orientation event that the handler reads.
    [webkitCompassHeading] is [None] where the platform does not report
    it; [alpha] is [None] for [null]. *)
Record OrientationEvent : Type := mkOrientationEvent {
  webkitCompassHeading : option R;
  absolute : bool;
  alpha : option R
}.

(** [rawHeading], [smoothHeading] and [lastHeadingRef.current]. *)
Record Heading : Type := mkHeading {
  rawHeading : R;
  smoothHeading : R;
  lastHeadingRef : R
}.

(** The state set when the compass is opened. *)
Definition resetHeading : Heading :=
  {| rawHeading := 0; smoothHeading := 0; lastHeadingRef := 0 |}.

(** [if (v)] on an optional number: an absent value and 0 are falsy. *)
Definition truthy (v : option R) : option R :=
  match v with
  | Some h => if Req_dec_T h 0 then None else Some h
  | None => None
  end.

(** The value of [compass] after the chain of conditions. *)
Definition compassHeading (e : OrientationEvent) : R :=
  match truthy (webkitCompassHeading e) with
  | Some h => h
  | None =>
      match absolute e, alpha e with
      | true, Some a => Rabs (a - 360)
      | _, _ =>
          match alpha e with
          | Some a => Rabs (a - 360)
          | None => 0
          end
      end
  end.

(** [delta] after the two corrections, applied one after the other. *)
Definition shortestDelta (currentRaw previousRaw : R) : R :=
  let delta := currentRaw - previousRaw in
  let delta := if Rlt_dec delta (-180) then delta + 360 else delta in
  let delta := if Rlt_dec 180 delta then delta - 360 else delta in
  delta.

Definition handleOrientation (s : Heading) (e : OrientationEvent) : Heading :=
  let compass := compassHeading e in
  let currentRaw := compass in
  let previousRaw := lastHeadingRef s in
  let delta := shortestDelta currentRaw previousRaw in
  {| rawHeading := compass;
     smoothHeading := smoothHeading s + delta;
     lastHeadingRef := currentRaw |}.

(** The events of a session, handled in order from the reset state. *)
Definition session (events : list OrientationEvent) : Heading :=
  fold_left handleOrientation events resetHeading.

Definition dialRotation (s : Heading) : R := - smoothHeading s.
Definition needleRotation (q : Qibla) (s : Heading) : R :=
  qiblaBearing q - smoothHeading s.

(** An event that reports [h] as its compass heading. *)
Definition sample (h : R) : OrientationEvent :=
  {| webkitCompassHeading := Some h; absolute := false; alpha := None |}.

(** The per-sample correction as the specification words it: exactly one
    of three cases applies. *)
Definition specDelta (currentRaw previousRaw : R) : R :=
  let delta := currentRaw - previousRaw in
  if Rlt_dec delta (-180) then delta + 360
  else if Rlt_dec 180 delta then delta - 360
  else delta.

End QiblaCompass.

(** ** Schedules used below *)

Module Fixtures.
Import App.
Local Open Scope string_scope.
Local Open Scope Z_scope.

Definition entry (name nameArabic time : string) : PrayerTime :=
  {| name := name; nameArabic := nameArabic; time := time; isNext := None |}.

(** [FALLBACK_DATA] of [constants.ts]. *)
Definition FALLBACK_DATA : DailyData :=
  {| gregorianDate := "Jumat, 2 Januari 2026";
     hijri := {| day := 13; month := "Rajab"; year := 1447;
                 dayNameArabic := "الجمعة";
                 fullString := "١٣ رجب ١٤٤٧" |};
     prayers :=
       [ entry "Fajr" "الفجر" "04:15";
         entry "Shuruq" "الشروق" "05:35";
         entry "Duha" "الضحى" "06:00";
         entry "Dhuhr" "الظهر" "11:55";
         entry "Asr" "العصر" "15:20";
         entry "Maghrib" "المغرب" "18:05";
         entry "Isha" "العشاء" "19:20";
         entry "Midnight" "نصف الليل" "23:45";
         entry "LastThird" "الثلث الأخير" "01:15" ];
     city := "Jakarta (Default)";
     timezone := None;
     quote := Some "Memuat data terkini..." |}.

Definition withSchedule (ps : list PrayerTime) : DailyData :=
  with_prayers FALLBACK_DATA ps.

(** Maghrib 18:00, Isha 19:20, Midnight 23:45, LastThird 01:15. *)
Definition nightSchedule : list PrayerTime :=
  [ entry "Maghrib" "المغرب" "18:00";
    entry "Isha" "العشاء" "19:20";
    entry "Midnight" "نصف الليل" "23:45";
    entry "LastThird" "الثلث الأخير" "01:15" ].

(** A schedule with no Maghrib entry. *)
Definition noMaghribSchedule : list PrayerTime :=
  [ entry "Fajr" "الفجر" "04:15";
    entry "Isha" "العشاء" "19:20";
    entry "LastThird" "الثلث الأخير" "01:15" ].

(** A day schedule that ends with Isha. *)
Definition daySchedule : list PrayerTime :=
  [ entry "Fajr" "الفجر" "04:15";
    entry "Dhuhr" "الظهر" "11:55";
    entry "Maghrib" "المغرب" "18:05";
    entry "Isha" "العشاء" "19:20" ].

Definition at_ (date : string) (h m : Z) : Date :=
  {| toDateString := date; getHours := h; getMinutes := m |}.

Definition friday : string := "Fri Jan 02 2026".
Definition saturday : string := "Sat Jan 03 2026".

End Fixtures.

Module CompassFixtures.
Import QiblaCompass.
Local Open Scope R_scope.

(** [DEFAULT_LOCATION] of [constants.ts], Jakarta. *)
Definition DEFAULT_LOCATION_lat : R := -62088 / 10000.
Definition DEFAULT_LOCATION_lng : R := 1068456 / 10000.

(** A device that reports a compass heading of exactly 0, true north,
    while its [alpha] is 90. *)
Definition northHeadingEvent : OrientationEvent :=
  {| webkitCompassHeading := Some 0; absolute := false; alpha := Some 90 |}.

(** Absolute events without a compass heading field, at [alpha] 0 and 90. *)
Definition alphaZeroEvent : OrientationEvent :=
  {| webkitCompassHeading := None; absolute := true; alpha := Some 0 |}.

Definition alphaQuarterEvent : OrientationEvent :=
  {| webkitCompassHeading := None; absolute := true; alpha := Some 90 |}.

End CompassFixtures.

(** ** The service that builds the schedule ([services/geminiService.ts]) *)

Module GeminiService.
Import App.
Local Open Scope string_scope.
Local Open Scope Z_scope.

(** The nine times that [formatTime] returns for a day. *)
Record FormattedTimes : Type := mkFormattedTimes {
  fajr : string;
  sunrise : string;
  duha : string;
  dhuhr : string;
  asr : string;
  maghrib : string;
  isha : string;
  midnight : string;
  lastThird : string
}.

(** [calculatedPrayers]; [isNext] is not set. *)
Definition calculatedPrayers (t : FormattedTimes) : list PrayerTime :=
  [ {| name := "Fajr"; nameArabic := "الفجر"; time := fajr t; isNext := None |};
    {| name := "Shuruq"; nameArabic := "الشروق"; time := sunrise t; isNext := None |};
    {| name := "Duha"; nameArabic := "الضحى"; time := duha t; isNext := None |};
    {| name := "Dhuhr"; nameArabic := "الظهر"; time := dhuhr t; isNext := None |};
    {| name := "Asr"; nameArabic := "العصر"; time := asr t; isNext := None |};
    {| name := "Maghrib"; nameArabic := "المغرب"; time := maghrib t; isNext := None |};
    {| name := "Isha"; nameArabic := "العشاء"; time := isha t; isNext := None |};
    {| name := "Midnight"; nameArabic := "نصف الليل"; time := midnight t; isNext := None |};
    {| name := "LastThird"; nameArabic := "الثلث الأخير"; time := lastThird t; isNext := None |} ].

End GeminiService.

(** ** Notions used to state the selector's properties *)

Module SelectorView.
Import JsNumber App.
Local Open Scope Z_scope.

(** By how many minutes [p] lies after the current time, if it does. *)
Definition minutesAhead (mm cur : number) (p : PrayerTime) : option Z :=
  match prayerMinutes mm p, cur with
  | Fin n, Fin c => if c <? n then Some (n - c) else None
  | _, _ => None
  end.

(** The smallest difference met so far; [None] before the first. *)
Definition ofBest (o : option Z) : number :=
  match o with
  | Some d => Fin d
  | None => Infinity
  end.

(** The decimal digit [k] as a character, and a two-digit field. *)
Definition digitChar (k : Z) : ascii := ascii_of_nat (48 + Z.to_nat k).

Definition twoDigits (n : Z) : string :=
  String (digitChar (n / 10)) (String (digitChar (n mod 10)) EmptyString).

(** A time of day in the [HH:mm] format of [types.ts]. *)
Definition formatHHmm (h m : Z) : string :=
  (twoDigits h ++ ":" ++ twoDigits m)%string.

(** [s] has no colon. *)
Fixpoint no_colon (s : string) : bool :=
  match s with
  | EmptyString => true
  | String c s' => negb (Ascii.eqb c ":"%char) && no_colon s'
  end.

(** Two entries with the same name, Arabic name and time. *)
Definition sameEntry (p q : PrayerTime) : Prop :=
  name q = name p /\ nameArabic q = nameArabic p /\ time q = time p.

End SelectorView.

(** ** The life of the compass component: opening, permission, events *)

Module CompassLifecycle.
Import QiblaCompass.
Local Open Scope string_scope.

(** What the component finds on the platform. *)
Record Platform : Type := mkPlatform {
  (* DeviceOrientationEvent is defined and its requestPermission is a function *)
  requestPermissionIsFunction : bool;
  (* 'ondeviceorientationabsolute' in window *)
  hasAbsoluteEvents : bool
}.

Inductive EventType : Type :=
| deviceorientationabsolute
| deviceorientation.

Definition EventType_eqb (a b : EventType) : bool :=
  match a, b with
  | deviceorientationabsolute, deviceorientationabsolute => true
  | deviceorientation, deviceorientation => true
  | _, _ => false
  end.

(** The type the effect listens to, and its cleanup removes. *)
Definition listenedType (pf : Platform) : EventType :=
  if hasAbsoluteEvents pf then deviceorientationabsolute else deviceorientation.

(** How [requestPermission()] ends: it resolves to ['granted'], resolves to
    something else, or rejects. *)
Inductive PermissionResponse : Type :=
| Granted
| Refused
| Threw.

(** The [isOpen] prop, the state of the component, and the type for which
    [handleOrientation] is registered on the window, if any. *)
Record Component : Type := mkComponent {
  isOpen : bool;
  heading : Heading;
  permissionGranted : bool;
  needsPermission : bool;
  error : option string;
  listener : option EventType
}.

(** The component as mounted, closed. *)
Definition mounted : Component :=
  {| isOpen := false; heading := resetHeading; permissionGranted := false;
     needsPermission := false; error := None; listener := None |}.

Inductive Action : Type :=
| SetOpen (open : bool)
| RequestAccess (response : PermissionResponse)
| Dispatch (type : EventType) (e : OrientationEvent).

(** The body of the effect on [isOpen], run when the component opens. *)
Definition openEffect (pf : Platform) (c : Component) : Component :=
  if requestPermissionIsFunction pf then
    {| isOpen := true; heading := resetHeading;
       permissionGranted := permissionGranted c;
       needsPermission := true;
       error := error c; listener := listener c |}
  else
    {| isOpen := true; heading := resetHeading;
       permissionGranted := true;
       needsPermission := needsPermission c;
       error := error c; listener := Some (listenedType pf) |}.

(** The cleanup of that effect, run when the component closes; the effect
    then returns at once. *)
Definition closeEffect (c : Component) : Component :=
  {| isOpen := false; heading := heading c;
     permissionGranted := permissionGranted c;
     needsPermission := needsPermission c;
     error := error c; listener := None |}.

Definition requestAccess (pf : Platform) (c : Component)
    (response : PermissionResponse) : Component :=
  if requestPermissionIsFunction pf then
    match response with
    | Granted =>
        {| isOpen := isOpen c; heading := heading c;
           permissionGranted := true; needsPermission := false;
           error := error c; listener := listener c |}
    | Refused =>
        {| isOpen := isOpen c; heading := heading c;
           permissionGranted := permissionGranted c;
           needsPermission := needsPermission c;
           error := Some "Izin akses sensor ditolak.";
           listener := listener c |}
    | Threw =>
        {| isOpen := isOpen c; heading := heading c;
           permissionGranted := permissionGranted c;
           needsPermission := needsPermission c;
           error := Some "Gagal meminta izin sensor.";
           listener := listener c |}
    end
  else c.

(** An event reaches [handleOrientation] when the handler is registered
    for its type. *)
Definition dispatch (c : Component) (type : EventType) (e : OrientationEvent)
  : Component :=
  match listener c with
  | Some registered =>
      if EventType_eqb type registered then
        {| isOpen := isOpen c; heading := handleOrientation (heading c) e;
           permissionGranted := permissionGranted c;
           needsPermission := needsPermission c;
           error := error c; listener := listener c |}
      else c
  | None => c
  end.

(** The effect depends on [isOpen] alone: it runs when the prop changes. *)
Definition step (pf : Platform) (c : Component) (a : Action) : Component :=
  match a with
  | SetOpen open =>
      if Bool.eqb open (isOpen c) then c
      else if open then openEffect pf c else closeEffect c
  | RequestAccess response => requestAccess pf c response
  | Dispatch type e => dispatch c type e
  end.

Definition run (pf : Platform) (actions : list Action) (c : Component)
  : Component :=
  fold_left (step pf) actions c.

(** The condition under which the permission overlay is rendered. *)
Definition overlayShown (c : Component) : bool :=
  needsPermission c && negb (permissionGranted c).

End CompassLifecycle.

(** ** The request for the city and the quote ([fetchDailyIslamicData]) *)

Module GeminiRequest.
Import App GeminiService.
Local Open Scope string_scope.
Local Open Scope Z_scope.

(** The parsed reply, with the two properties of the response schema. *)
Record Reply : Type := mkReply {
  replyCity : string;
  replyQuote : string
}.

(** How one pass through the [try] block ends: the text is parsed; an
    error is caught that the handler takes for an exhausted quota (its
    message contains 429, its status is 429, or its text contains
    RESOURCE_EXHAUSTED); or another error is caught, an empty text and a
    text that does not parse among them. *)
Inductive Attempt : Type :=
| Parsed (reply : Reply)
| QuotaExceeded
| Failed.

Definition MAX_RETRIES : Z := 3.

(** [parsed], the number of requests sent, and the delays awaited, in
    milliseconds and in order. *)
Record Loop : Type := mkLoop {
  parsed : option Reply;
  requests : Z;
  delays : list Z
}.

(** The [for] loop from [i] on; [outcome i] is how attempt [i] ends.  The
    loop takes at most [MAX_RETRIES] turns, which [fuel] counts. *)
Fixpoint retryFrom (outcome : Z -> Attempt) (fuel : nat) (i : Z) (st : Loop)
  : Loop :=
  match fuel with
  | O => st
  | S fuel' =>
      if i <? MAX_RETRIES then
        let sent :=
          {| parsed := parsed st; requests := requests st + 1;
             delays := delays st |} in
        match outcome i with
        | Parsed reply =>
            {| parsed := Some reply; requests := requests sent;
               delays := delays sent |}
        | QuotaExceeded => sent
        | Failed =>
            let waited :=
              if i <? MAX_RETRIES - 1
              then {| parsed := parsed sent; requests := requests sent;
                      delays := delays sent ++ [1000 * 2 ^ i] |}
              else sent in
            retryFrom outcome fuel' (i + 1) waited
        end
      else st
  end.

Definition retry (outcome : Z -> Attempt) : Loop :=
  retryFrom outcome (Z.to_nat MAX_RETRIES) 0
    {| parsed := None; requests := 0; delays := [] |}.

Definition fallbackCity : string := "Mode Hemat Data (Offline)".
Definition fallbackQuote : string :=
  "لا يكلف الله نفسا إلا وسعها" ++ String "010"%char "Allah tidak membebani seseorang melainkan sesuai dengan kesanggupannya.".

(** The value returned, from what the platform formats ([gregorianLatin],
    the Hijri data, the nine times, the time zone) and the loop. *)
Definition dailyData (gregorianLatin : string) (consistentHijriData : HijriDateInfo)
    (times : FormattedTimes) (timeZone : string) (l : Loop) : DailyData :=
  {| gregorianDate := gregorianLatin;
     prayers := calculatedPrayers times;
     hijri := consistentHijriData;
     city := match parsed l with
             | Some reply => replyCity reply
             | None => fallbackCity
             end;
     timezone := Some timeZone;
     quote := Some match parsed l with
                   | Some reply => replyQuote reply
                   | None => fallbackQuote
                   end |}.

(** The delay before attempt [i + 1]. *)
Definition backoff (i : Z) : Z := 1000 * 2 ^ i.

End GeminiRequest.

(** ** The times of the night ([fetchDailyIslamicData]) *)

Module NightTimes.
Import QiblaCompass.
Local Open Scope R_scope.

(** [new Date(t).getTime()]: the time value is clipped, NaN ([None])
    beyond 8.64e15 milliseconds and the integer part of [t] otherwise. *)
Definition newDate (t : R) : option Z :=
  if Rlt_dec 8640000000000000 (Rabs t) then None else Some (truncate t).

Record Night : Type := mkNight {
  midnightDate : option Z;
  lastThirdDate : option Z
}.

(** From the time values of today's Maghrib and tomorrow's Fajr. *)
Definition nightTimes (maghribTime fajrTomorrowTime : Z) : Night :=
  let maghribTime := IZR maghribTime in
  let fajrTomorrowTime := IZR fajrTomorrowTime in
  let nightDuration := fajrTomorrowTime - maghribTime in
  {| midnightDate := newDate (maghribTime + nightDuration / 2);
     lastThirdDate := newDate (maghribTime + nightDuration * (2 / 3)) |}.

(** Duha, 20 minutes after sunrise. *)
Definition duhaDate (sunriseTime : Z) : option Z :=
  newDate (IZR sunriseTime + 20 * 60 * 1000).

(** A time value of magnitude at most 2^51: differences, halves and sums
    of such values are doubles, so the code computes them without
    rounding. *)
Definition smallTime (t : Z) : Prop :=
  (- 2251799813685248 <= t <= 2251799813685248)%Z.

End NightTimes.

(** ** Arabic-Indic digits ([convertArabicToEnglish]) *)

Module HijriDigits.
Local Open Scope string_scope.

(** Strings are held in UTF-8.  The ten characters of the pattern, U+0660
    to U+0669, are the two-byte sequences D9 A0 to D9 A9, and a
    well-formed text has this pair of bytes nowhere else. *)
Definition isLead (c : ascii) : bool := (nat_of_ascii c =? 217)%nat.

Definition isDigitTail (c : ascii) : bool :=
  let n := nat_of_ascii c in (160 <=? n)%nat && (n <=? 169)%nat.

(** The replacement for the digit whose second byte is [c]. *)
Definition englishDigit (c : ascii) : ascii :=
  ascii_of_nat (nat_of_ascii c - 160 + 48).

Fixpoint convertArabicToEnglish (s : string) : string :=
  match s with
  | EmptyString => EmptyString
  | String c1 s1 =>
      match s1 with
      | EmptyString => String c1 EmptyString
      | String c2 s2 =>
          if isLead c1 && isDigitTail c2
          then String (englishDigit c2) (convertArabicToEnglish s2)
          else String c1 (convertArabicToEnglish s1)
      end
  end.

(** A numeral written with Arabic-Indic digits, and with ASCII digits;
    a digit is a number from 0 to 9. *)
Fixpoint arabicNumeral (digits : list nat) : string :=
  match digits with
  | [] => EmptyString
  | d :: digits' =>
      String (ascii_of_nat 217)
        (String (ascii_of_nat (160 + d)) (arabicNumeral digits'))
  end.

Fixpoint englishNumeral (digits : list nat) : string :=
  match digits with
  | [] => EmptyString
  | d :: digits' => String (ascii_of_nat (48 + d)) (englishNumeral digits')
  end.

(** [s] holds an Arabic-Indic digit. *)
Fixpoint hasArabicDigit (s : string) : bool :=
  match s with
  | EmptyString => false
  | String c1 s1 =>
      match s1 with
      | EmptyString => false
      | String c2 _ => (isLead c1 && isDigitTail c2) || hasArabicDigit s1
      end
  end.

End HijriDigits.

(** ** Weather codes ([services/weatherService.ts]) *)

Module WeatherService.
Local Open Scope string_scope.
Local Open Scope Z_scope.

(** WMO weather codes are whole numbers. *)
Definition getWeatherDescription (code : Z) : string :=
  if code =? 0 then "Cerah"
  else if code =? 1 then "Cerah Berawan"
  else if code =? 2 then "Berawan"
  else if code =? 3 then "Mendung"
  else if (45 <=? code) && (code <=? 48) then "Berkabut"
  else if (51 <=? code) && (code <=? 55) then "Gerimis"
  else if (61 <=? code) && (code <=? 65) then "Hujan"
  else if (80 <=? code) && (code <=? 82) then "Hujan Lebat"
  else if 95 <=? code then "Badai Petir"
  else "Tidak Diketahui".

Definition getWeatherIcon (code : Z) (isDay : bool) : string :=
  if code =? 0 then (if isDay then "☀️" else "🌙")
  else if code =? 1 then (if isDay then "🌤️" else "☁️")
  else if code =? 2 then "⛅"
  else if code =? 3 then "☁️"
  else if (45 <=? code) && (code <=? 48) then "🌫️"
  else if (51 <=? code) && (code <=? 67) then "🌧️"
  else if (71 <=? code) && (code <=? 77) then "❄️"
  else if (80 <=? code) && (code <=? 82) then "⛈️"
  else if 95 <=? code then "⚡"
  else "🌡️".

End WeatherService.

(** ** The [HH:mm] format *)

Module TimeFormat.
Import JsString.
Local Open Scope Z_scope.

(** [t] has the format that [types.ts] gives for a time: two digits, a
    colon and two digits, the hour below 24 and the minute below 60. *)
Definition isHHmm (t : string) : bool :=
  match t with
  | String h1 (String h2 (String c (String m1 (String m2 EmptyString)))) =>
      is_digit h1 && is_digit h2 && Ascii.eqb c ":"%char
      && is_digit m1 && is_digit m2
      && (10 * digit_value h1 + digit_value h2 <? 24)
      && (10 * digit_value m1 + digit_value m2 <? 60)
  | _ => false
  end.

End TimeFormat.

(** ** The two halves of the distance computation *)

Module QiblaDistance.
Import QiblaCompass.
Local Open Scope R_scope.

(** The haversine term [a] of [calculateQibla]. *)
Definition haversineTerm (lat lng targetLat targetLng : R) : R :=
  let phi1 := toRad lat in
  let phi2 := toRad targetLat in
  let lambda1 := toRad lng in
  let lambda2 := toRad targetLng in
  let dLat := phi2 - phi1 in
  let dLon := lambda2 - lambda1 in
  sin (dLat / 2) * sin (dLat / 2) +
  cos phi1 * cos phi2 * sin (dLon / 2) * sin (dLon / 2).


End QiblaDistance.

(** * Properties of the selector *)

Section Selector.
Import JsNumber JsString App.
Local Open Scope Z_scope.

(** ** The indexed traversals *)

Lemma mapi_length {A B : Type} (f : A -> Z -> B) (l : list A) :
  forall idx, List.length (mapi f idx l) = List.length l.
Proof.
  induction l as [| x l IH]; intros idx; simpl; [reflexivity |].
  now rewrite IH.
Qed.

(** Flagging the entries whose index is [k] keeps the three payload
    fields of every entry. *)
Lemma mapi_flag_fields (k : Z) (l : list PrayerTime) :
  forall idx,
    Forall2 (fun p q =>
               name q = name p /\ nameArabic q = nameArabic p /\
               time q = time p)
      l (mapi (fun p i => with_isNext p (i =? k)) idx l).
Proof.
  induction l as [| p l IH]; intros idx; simpl; constructor; auto.
Qed.

Lemma map_unflag_fields (l : list PrayerTime) :
  Forall2 (fun p q =>
             name q = name p /\ nameArabic q = nameArabic p /\
             time q = time p)
    l (map (fun p => with_isNext p false) l).
Proof. induction l; simpl; constructor; auto. Qed.

(** Flagging index [k] flags one entry when [k] is an index of the list
    and none otherwise. *)
Lemma countNext_mapi_flag (k : Z) (l : list PrayerTime) :
  forall idx,
    countNext (mapi (fun p i => with_isNext p (i =? k)) idx l) =
    if (idx <=? k) && (k <? idx + Z.of_nat (List.length l)) then 1%nat else 0%nat.
Proof.
  unfold countNext.
  induction l as [| p l IH]; intros idx.
  - simpl. destruct (idx <=? k) eqn:E1, (k <? idx + 0) eqn:E2; try reflexivity.
    apply Z.leb_le in E1. apply Z.ltb_lt in E2. lia.
  - cbn [mapi filter List.length]. unfold flagged at 1. cbn [with_isNext isNext].
    rewrite Nat2Z.inj_succ.
    destruct (idx =? k) eqn:Ek.
    + apply Z.eqb_eq in Ek. subst k. cbn [List.length]. rewrite IH.
      replace (idx + 1 <=? idx) with false by (symmetry; apply Z.leb_gt; lia).
      replace (idx <=? idx) with true by (symmetry; apply Z.leb_le; lia).
      replace (idx <? idx + Z.succ (Z.of_nat (List.length l))) with true
        by (symmetry; apply Z.ltb_lt; lia).
      reflexivity.
    + apply Z.eqb_neq in Ek. rewrite IH.
      destruct (idx + 1 <=? k) eqn:E1, (idx <=? k) eqn:E2;
        try apply Z.leb_le in E1; try apply Z.leb_gt in E1;
        try apply Z.leb_le in E2; try apply Z.leb_gt in E2; try lia; cbn [andb];
        try reflexivity.
      replace (idx + 1 + Z.of_nat (List.length l))
        with (idx + Z.succ (Z.of_nat (List.length l))) by lia.
      reflexivity.
Qed.

Lemma countNext_map_unflag (l : list PrayerTime) :
  countNext (map (fun p => with_isNext p false) l) = 0%nat.
Proof. unfold countNext. induction l; simpl; auto. Qed.

(** ** The scan *)

(** A step either keeps the state or records the index it visits. *)
Lemma visit_cases (mm cur : number) (st : Scan) (p : PrayerTime) (idx : Z) :
  visit mm cur st p idx = st \/
  (nextPrayerIndex (visit mm cur st p idx) = idx /\
   gt (prayerMinutes mm p) cur = true).
Proof.
  unfold visit.
  destruct (gt (prayerMinutes mm p) cur); [| now left].
  destruct (lt _ (minDiff st)); [right | left]; auto.
Qed.

(** The recorded index is the initial one or an index of the scanned
    entries. *)
Lemma forEach_visit_index (mm cur : number) (l : list PrayerTime) :
  forall idx st,
    let r := forEach (visit mm cur) idx l st in
    nextPrayerIndex r = nextPrayerIndex st \/
    idx <= nextPrayerIndex r < idx + Z.of_nat (List.length l).
Proof.
  induction l as [| p l IH]; intros idx st; cbn zeta; [now left |].
  cbn [forEach List.length]. rewrite Nat2Z.inj_succ.
  specialize (IH (idx + 1) (visit mm cur st p idx)). cbn zeta in IH.
  destruct IH as [IH | IH]; [| right; lia].
  rewrite IH.
  destruct (visit_cases mm cur st p idx) as [-> | [-> _]]; [now left |].
  right; lia.
Qed.

(** With no entry after the current time the scan changes nothing. *)
Lemma forEach_visit_none (mm cur : number) (l : list PrayerTime) :
  Forall (fun p => gt (prayerMinutes mm p) cur = false) l ->
  forall idx st, forEach (visit mm cur) idx l st = st.
Proof.
  induction 1 as [| p l Hp _ IH]; intros idx st; [reflexivity |].
  cbn [forEach]. unfold visit at 2. rewrite Hp. apply IH.
Qed.

Lemma selectedIndex_range (ps : list PrayerTime) (now : Date) :
  ps <> [] ->
  0 <= selectedIndex ps now < Z.of_nat (List.length ps).
Proof.
  intros Hne. unfold selectedIndex, scanPrayers.
  pose proof (forEach_visit_index (maghribMinutes ps) (currentMinutes now) ps 0
                {| nextPrayerIndex := -1; minDiff := Infinity |}) as H.
  cbn zeta in H. cbn [nextPrayerIndex] in H.
  destruct ps as [| p ps]; [contradiction |].
  cbn [List.length] in *. rewrite Nat2Z.inj_succ in *.
  destruct (Z.eqb_spec (nextPrayerIndex
     (forEach (visit (maghribMinutes (p :: ps)) (currentMinutes now)) 0 (p :: ps)
        {| nextPrayerIndex := -1; minDiff := Infinity |})) (-1)); lia.
Qed.

(** Past its own index the flag of index 0 is never raised. *)
Lemma mapi_flag_zero_later (l : list PrayerTime) :
  forall idx, 0 < idx ->
    mapi (fun p i => with_isNext p (i =? 0)) idx l =
    map (fun p => with_isNext p false) l.
Proof.
  induction l as [| p l IH]; intros idx Hidx; simpl; [reflexivity |].
  rewrite IH by lia.
  replace (idx =? 0) with false by (symmetry; apply Z.eqb_neq; lia).
  reflexivity.
Qed.

Lemma isNightPrayer_by_name (p : PrayerTime) :
  In (name p) ["Isha"; "Midnight"; "LastThird"]%string ->
  isNightPrayer p = true.
Proof.
  intros H. unfold isNightPrayer. apply orb_true_iff. left.
  apply existsb_exists. exists (name p). split.
  - simpl in *. intuition.
  - apply String.eqb_refl.
Qed.

Lemma isNightPrayer_by_label (p : PrayerTime) (label : string) :
  In label ["نصف الليل"; "الثلث الأخير"; "العشاء"]%string ->
  includes (nameArabic p) label = true ->
  isNightPrayer p = true.
Proof.
  intros Hin Hinc. unfold isNightPrayer. apply orb_true_iff. right.
  apply existsb_exists. exists label. split; assumption.
Qed.

Lemma find_none_of_Forall {A : Type} (f : A -> bool) (l : list A) :
  Forall (fun x => f x = false) l -> find f l = None.
Proof.
  induction 1 as [| x l Hx _ IH]; simpl; [reflexivity |].
  now rewrite Hx.
Qed.

End Selector.

Section SelectorClaims.
Import JsNumber JsString App Fixtures.
Local Open Scope Z_scope.

(** C1.  When the viewed day is today, an entry named Isha, Midnight or
    LastThird, or whose Arabic label contains one of their labels, and whose
    minutes value is below Maghrib's is compared with 1440 added.  For the
    schedule Maghrib 18:00, Isha 19:20, Midnight 23:45, LastThird 01:15 at
    20:00 the adjusted values are 1080, 1160, 1425 and 1515, and the entry
    flagged is Midnight and no other. *)
Theorem night_prayer_shifted_by_a_day :
  (forall (ps : list PrayerTime) (p : PrayerTime) (m g : Z),
      In (name p) ["Isha"; "Midnight"; "LastThird"]%string \/
      (exists label,
          In label ["نصف الليل"; "الثلث الأخير"; "العشاء"]%string /\
          includes (nameArabic p) label = true) ->
      timeMinutes (time p) = Fin m ->
      maghribMinutes ps = Fin g ->
      m < g ->
      prayerMinutes (maghribMinutes ps) p = Fin (m + 1440)) /\
  (let now := at_ friday 20 0 in
   isToday (at_ friday 0 0) now = true /\
   map (prayerMinutes (maghribMinutes nightSchedule)) nightSchedule =
     [Fin 1080; Fin 1160; Fin 1425; Fin 1515] /\
   selectedIndex nightSchedule now = 2 /\
   map (fun p => (name p, time p, isNext p))
     (prayers (markNextPrayer (withSchedule nightSchedule) (at_ friday 0 0) now)) =
     [ ("Maghrib", "18:00", Some false); ("Isha", "19:20", Some false);
       ("Midnight", "23:45", Some true); ("LastThird", "01:15", Some false) ]%string).
Proof.
  split.
  - intros ps p m g Hnight Hm Hg Hlt.
    assert (isNightPrayer p = true) as Hn.
    { destruct Hnight as [H | [label [H1 H2]]].
      - now apply isNightPrayer_by_name.
      - now apply isNightPrayer_by_label with label. }
    unfold prayerMinutes. rewrite Hn, Hm, Hg. cbn [lt andb].
    replace (m <? g) with true by (symmetry; apply Z.ltb_lt; exact Hlt).
    reflexivity.
  - cbn zeta. repeat split; vm_compute; reflexivity.
Qed.

Lemma night_prayer_shifted_by_a_day_witness :
  prayerMinutes (maghribMinutes nightSchedule)
    (entry "LastThird" "الثلث الأخير" "01:15") = Fin (75 + 1440).
Proof.
  apply (proj1 night_prayer_shifted_by_a_day nightSchedule
           (entry "LastThird" "الثلث الأخير" "01:15") 75 1080).
  - left. simpl. auto.
  - vm_compute. reflexivity.
  - vm_compute. reflexivity.
  - lia.
Defined.

(** C6.  When the viewed day is today and no entry of a non-empty schedule
    has an adjusted minutes value above the current minutes, the index
    selected is 0: the function returns the schedule with its first entry
    flagged and the others not. *)
Theorem no_later_prayer_selects_index_0 :
  forall (data : DailyData) (targetDate now : Date),
    isToday targetDate now = true ->
    prayers data <> [] ->
    Forall (fun p =>
              gt (prayerMinutes (maghribMinutes (prayers data)) p)
                 (currentMinutes now) = false)
      (prayers data) ->
    selectedIndex (prayers data) now = 0 /\
    exists first rest,
      prayers data = first :: rest /\
      prayers (markNextPrayer data targetDate now) =
        with_isNext first true :: map (fun p => with_isNext p false) rest.
Proof.
  intros data targetDate now Htoday Hne Hnone.
  assert (selectedIndex (prayers data) now = 0) as Hsel.
  { unfold selectedIndex, scanPrayers.
    rewrite forEach_visit_none by exact Hnone. reflexivity. }
  split; [exact Hsel |].
  destruct (prayers data) as [| first rest] eqn:Hps; [contradiction |].
  exists first, rest. split; [reflexivity |].
  unfold markNextPrayer. rewrite Htoday. cbn [negb with_prayers prayers].
  rewrite Hps, Hsel. cbn [mapi]. rewrite mapi_flag_zero_later by lia.
  reflexivity.
Qed.

Lemma no_later_prayer_selects_index_0_witness :
  selectedIndex daySchedule (at_ friday 21 30) = 0 /\
  exists first rest,
    daySchedule = first :: rest /\
    prayers (markNextPrayer (withSchedule daySchedule) (at_ friday 9 0)
               (at_ friday 21 30)) =
      with_isNext first true :: map (fun p => with_isNext p false) rest.
Proof.
  apply (no_later_prayer_selects_index_0 (withSchedule daySchedule)
           (at_ friday 9 0) (at_ friday 21 30)).
  - reflexivity.
  - discriminate.
  - repeat constructor.
Defined.

(** C7.  For a non-empty schedule, whatever the current time, the output
    has exactly one entry flagged next when the viewed day is today and
    none when it is another day. *)
Theorem one_next_today_none_otherwise :
  forall (data : DailyData) (targetDate now : Date),
    prayers data <> [] ->
    countNext (prayers (markNextPrayer data targetDate now)) =
    if isToday targetDate now then 1%nat else 0%nat.
Proof.
  intros data targetDate now Hne. unfold markNextPrayer.
  destruct (isToday targetDate now); cbn [negb with_prayers prayers].
  - rewrite countNext_mapi_flag.
    pose proof (selectedIndex_range (prayers data) now Hne) as [Hlo Hhi].
    apply Z.leb_le in Hlo. rewrite Hlo.
    rewrite Z.add_0_l. apply Z.ltb_lt in Hhi. rewrite Hhi. reflexivity.
  - apply countNext_map_unflag.
Qed.

Lemma one_next_today_none_otherwise_witness :
  countNext (prayers (markNextPrayer FALLBACK_DATA (at_ friday 0 0)
                        (at_ friday 16 40))) = 1%nat /\
  countNext (prayers (markNextPrayer FALLBACK_DATA (at_ saturday 0 0)
                        (at_ friday 16 40))) = 0%nat.
Proof.
  split.
  - apply (one_next_today_none_otherwise FALLBACK_DATA (at_ friday 0 0)
             (at_ friday 16 40)). discriminate.
  - apply (one_next_today_none_otherwise FALLBACK_DATA (at_ saturday 0 0)
             (at_ friday 16 40)). discriminate.
Defined.

(** C8.  When no entry of the schedule is recognised as Maghrib, by the
    name [maghrib] in any letter case or by the Arabic label, the night
    boundary is 1080 minutes: the scan runs with it and the function
    returns a schedule as for any other input. *)
Theorem missing_maghrib_falls_back_to_1080 :
  forall (data : DailyData) (targetDate now : Date),
    Forall (fun p =>
              toLowerCase (name p) <> "maghrib"%string /\
              includes (nameArabic p) "المغرب" = false)
      (prayers data) ->
    maghribMinutes (prayers data) = Fin 1080 /\
    scanPrayers (prayers data) now =
      forEach (visit (Fin 1080) (currentMinutes now)) 0 (prayers data)
        {| nextPrayerIndex := -1; minDiff := Infinity |} /\
    List.length (prayers (markNextPrayer data targetDate now)) =
      List.length (prayers data).
Proof.
  intros data targetDate now Hno.
  assert (maghribMinutes (prayers data) = Fin 1080) as Hmm.
  { unfold maghribMinutes. rewrite find_none_of_Forall; [reflexivity |].
    eapply Forall_impl; [| exact Hno].
    intros p [Hname Hlabel]. unfold isMaghrib. rewrite Hlabel, orb_false_r.
    now apply String.eqb_neq. }
  split; [exact Hmm |]. split.
  - unfold scanPrayers. now rewrite Hmm.
  - unfold markNextPrayer.
    destruct (negb (isToday targetDate now)); cbn [with_prayers prayers].
    + apply length_map.
    + apply mapi_length.
Qed.

Lemma missing_maghrib_falls_back_to_1080_witness :
  maghribMinutes noMaghribSchedule = Fin 1080 /\
  scanPrayers noMaghribSchedule (at_ friday 20 0) =
    forEach (visit (Fin 1080) (currentMinutes (at_ friday 20 0))) 0
      noMaghribSchedule {| nextPrayerIndex := -1; minDiff := Infinity |} /\
  List.length (prayers (markNextPrayer (withSchedule noMaghribSchedule)
                          (at_ friday 0 0) (at_ friday 20 0))) = 3%nat.
Proof.
  apply (missing_maghrib_falls_back_to_1080 (withSchedule noMaghribSchedule)
           (at_ friday 0 0) (at_ friday 20 0)).
  repeat constructor; discriminate.
Defined.

(** C10.  Whatever the input, the output schedule has the entries of the
    input in the same number and order, each with the same name, Arabic
    name and time, and the other fields of the daily data are the input's:
    only the next flags are set. *)
Theorem markNextPrayer_changes_flags_only :
  forall (data : DailyData) (targetDate now : Date),
    let out := markNextPrayer data targetDate now in
    List.length (prayers out) = List.length (prayers data) /\
    Forall2 (fun p q =>
               name q = name p /\ nameArabic q = nameArabic p /\
               time q = time p)
      (prayers data) (prayers out) /\
    gregorianDate out = gregorianDate data /\
    hijri out = hijri data /\
    city out = city data /\
    timezone out = timezone data /\
    quote out = quote data.
Proof.
  intros data targetDate now. cbn zeta. unfold markNextPrayer.
  destruct (negb (isToday targetDate now)); cbn [with_prayers prayers
    gregorianDate hijri city timezone quote].
  - split; [apply length_map |]. split; [apply map_unflag_fields |].
    repeat split.
  - split; [apply mapi_length |]. split; [apply mapi_flag_fields |].
    repeat split.
Qed.

End SelectorClaims.

(** * Properties of the compass *)

Section HeadingFilter.
Import QiblaCompass CompassFixtures.
Local Open Scope R_scope.

(** Decides the comparisons of a closed computation on reals. *)
Ltac cases_on_reals :=
  repeat match goal with
         | |- context [Rlt_dec ?a ?b] => destruct (Rlt_dec a b); try lra
         | |- context [Rle_dec ?a ?b] => destruct (Rle_dec a b); try lra
         | |- context [Req_dec_T ?a ?b] => destruct (Req_dec_T a b); try lra
         end.


Lemma truthy_zero : truthy (Some 0) = None.
Proof. unfold truthy. now destruct (Req_dec_T 0 0). Qed.


(** The conversion of [alpha] turns the angle around. *)
Lemma Rabs_alpha_conversion (a : R) :
  0 <= a <= 360 -> Rabs (a - 360) = 360 - a.
Proof. intros Ha. rewrite Rabs_left1 by lra. lra. Qed.

(** Without a usable [webkitCompassHeading], a non-null [alpha] is
    converted, whatever the [absolute] flag says. *)
Lemma compassHeading_alpha (e : OrientationEvent) (a : R) :
  truthy (webkitCompassHeading e) = None ->
  alpha e = Some a ->
  compassHeading e = Rabs (a - 360).
Proof.
  intros Hw Ha. unfold compassHeading. rewrite Hw, Ha.
  now destruct (absolute e).
Qed.


Lemma compassHeading_sample (h : R) : compassHeading (sample h) = h.
Proof.
  unfold compassHeading, sample. cbn [webkitCompassHeading absolute alpha].
  unfold truthy. destruct (Req_dec_T h 0) as [-> |]; reflexivity.
Qed.

(** The two corrections never both apply, so applying them in sequence
    is the three-way choice. *)
Lemma shortestDelta_specDelta (currentRaw previousRaw : R) :
  shortestDelta currentRaw previousRaw = specDelta currentRaw previousRaw.
Proof.
  unfold shortestDelta, specDelta. cbn zeta.
  destruct (Rlt_dec (currentRaw - previousRaw) (-180)) as [Hlow |];
    [| reflexivity].
  destruct (Rlt_dec 180 (currentRaw - previousRaw + 360)); [lra | reflexivity].
Qed.

(** C2.  A sample [currentRaw] adds to the accumulated heading the
    difference from the previous sample, plus 360 when the difference is
    below -180 and minus 360 when it is above 180, and becomes the previous
    sample.  From the reset state the samples 10 and 350 leave the
    accumulated heading at -10, strictly between -360 and 0. *)
Theorem heading_filter_takes_short_way :
  (forall (s : Heading) (e : OrientationEvent),
      let currentRaw := compassHeading e in
      let s' := handleOrientation s e in
      smoothHeading s' =
        smoothHeading s + specDelta currentRaw (lastHeadingRef s) /\
      lastHeadingRef s' = currentRaw) /\
  (let s := session [sample 10; sample 350] in
   smoothHeading s = -10 /\
   -360 < smoothHeading s < 0 /\
   lastHeadingRef s = 350).
Proof.
  split.
  - intros s e. cbn zeta. unfold handleOrientation.
    cbn [smoothHeading lastHeadingRef]. now rewrite shortestDelta_specDelta.
  - cbn zeta. unfold session, handleOrientation. cbn [fold_left].
    rewrite !compassHeading_sample.
    cbn [resetHeading smoothHeading lastHeadingRef].
    assert (shortestDelta 10 0 = 10) as ->
      by (unfold shortestDelta; cbn zeta; cases_on_reals).
    assert (shortestDelta 350 10 = -20) as ->
      by (unfold shortestDelta; cbn zeta; cases_on_reals).
    repeat split; lra.
Qed.

(** C4.  An event that reports a compass heading of exactly 0 (the device
    points to true north) is not read from that field: the test on the
    field is a truthiness test, which 0 fails, and the heading is taken
    from [alpha] instead.  With [alpha] at 90 the handler stores 270. *)
Theorem compass_heading_zero_is_skipped :
  webkitCompassHeading northHeadingEvent = Some 0 /\
  compassHeading northHeadingEvent = 270 /\
  rawHeading (handleOrientation resetHeading northHeadingEvent) = 270 /\
  compassHeading northHeadingEvent <> 0.
Proof.
  assert (compassHeading northHeadingEvent = 270) as H.
  { rewrite compassHeading_alpha with (a := 90);
      [| apply truthy_zero | reflexivity].
    rewrite Rabs_alpha_conversion by lra. lra. }
  unfold handleOrientation. cbn [rawHeading]. rewrite H.
  repeat split; lra.
Qed.




End HeadingFilter.

Section QiblaGeometry.
Import QiblaCompass CompassFixtures QiblaDistance.
Local Open Scope R_scope.

(** ** The [Math] functions *)

Lemma atan_nonneg (q : R) : 0 <= q -> 0 <= atan q.
Proof.
  intros [Hq | <-]; [| rewrite atan_0; lra].
  left. rewrite <- atan_0. now apply atan_increasing.
Qed.

Lemma atan_nonpos (q : R) : q <= 0 -> atan q <= 0.
Proof.
  intros [Hq | ->]; [| rewrite atan_0; lra].
  left. rewrite <- atan_0. now apply atan_increasing.
Qed.

Lemma quotient_sign (y x : R) :
  x <> 0 -> (0 <= y * x -> 0 <= y / x) /\ (y * x <= 0 -> y / x <= 0).
Proof.
  intros Hx.
  assert (y / x = (y * x) * (/ x * / x)) as -> by (field; exact Hx).
  assert (0 < / x * / x) as Hsq.
  { assert (/ x <> 0) by now apply Rinv_neq_0_compat. nra. }
  split; intros H; nra.
Qed.

(** [Math.atan2] returns an angle in (-PI, PI]. *)
Lemma Math_atan2_range (y x : R) : - PI < Math_atan2 y x <= PI.
Proof.
  pose proof PI_RGT_0 as Hpi.
  pose proof (atan_bound (y / x)) as Hb.
  unfold Math_atan2.
  destruct (Rlt_dec 0 x) as [Hx | Hx]; [lra |].
  destruct (Rlt_dec x 0) as [Hx' | Hx'].
  - assert (x <> 0) as Hnz by lra.
    destruct (quotient_sign y x Hnz) as [Hpos Hneg].
    destruct (Rle_dec 0 y) as [Hy | Hy].
    + assert (y * x <= 0) as Hyx.
      { replace (y * x) with (- (y * - x)) by ring.
        apply Ropp_le_cancel. rewrite Ropp_involutive, Ropp_0.
        apply Rmult_le_pos; lra. }
      assert (atan (y / x) <= 0) by apply atan_nonpos, Hneg, Hyx. lra.
    + assert (0 < y / x) as Hq by (apply Rdiv_neg_neg; lra).
      apply atan_increasing in Hq. rewrite atan_0 in Hq. lra.
  - destruct (Rlt_dec 0 y); [lra |].
    destruct (Rlt_dec y 0); lra.
Qed.

(** In the first quadrant the angle is not negative. *)
Lemma Math_atan2_nonneg (y x : R) : 0 <= y -> 0 <= x -> 0 <= Math_atan2 y x.
Proof.
  intros Hy Hx. pose proof PI_RGT_0 as Hpi. unfold Math_atan2.
  destruct (Rlt_dec 0 x) as [Hx' | Hx'].
  - apply atan_nonneg. apply quotient_sign; [lra |].
    apply Rmult_le_pos; lra.
  - destruct (Rlt_dec x 0); [lra |].
    destruct (Rlt_dec 0 y); [lra |].
    destruct (Rlt_dec y 0); lra.
Qed.

Lemma Math_atan2_0_0 : Math_atan2 0 0 = 0.
Proof.
  unfold Math_atan2.
  destruct (Rlt_dec 0 0); [lra |]. destruct (Rlt_dec 0 0); [lra | reflexivity].
Qed.

Lemma Math_atan2_0_1 : Math_atan2 0 1 = 0.
Proof.
  unfold Math_atan2. destruct (Rlt_dec 0 1); [| lra].
  replace (0 / 1) with 0 by field. apply atan_0.
Qed.

Lemma Math_sqrt_defined (x : R) : 0 <= x -> Math_sqrt x = Some (sqrt x).
Proof. intros Hx. unfold Math_sqrt. destruct (Rlt_dec x 0); [lra | reflexivity]. Qed.

Lemma Int_part_nonneg (r : R) : 0 <= r -> (0 <= Int_part r)%Z.
Proof.
  intros Hr. destruct (base_Int_part r) as [_ Hlow].
  assert (-1 < IZR (Int_part r)) as H by lra.
  apply lt_IZR in H. lia.
Qed.

Lemma Math_round_nonneg (x : R) : 0 <= x -> 0 <= Math_round x.
Proof.
  intros Hx. unfold Math_round. apply IZR_le, Int_part_nonneg. lra.
Qed.

Lemma Math_round_0 : Math_round 0 = 0.
Proof.
  unfold Math_round. rewrite <- (Int_part_spec (0 + / 2) 0); [reflexivity | lra].
Qed.

(** A non-negative dividend leaves a remainder in [0, y). *)
Lemma remainder_range (x y : R) :
  0 <= x -> 0 < y -> 0 <= remainder x y < y.
Proof.
  intros Hx Hy. unfold remainder, truncate.
  assert (0 <= x / y) as Hq
    by (apply quotient_sign; [lra | apply Rmult_le_pos; lra]).
  destruct (Rlt_dec (x / y) 0); [lra |].
  destruct (base_Int_part (x / y)) as [Hup Hlow].
  assert (x = (x / y) * y) as Hxy by (field; lra).
  set (k := IZR (Int_part (x / y))) in *.
  set (q := x / y) in *.
  split; nra.
Qed.

Lemma remainder_self (y : R) : 0 < y -> remainder y y = 0.
Proof.
  intros Hy. unfold remainder, truncate.
  replace (y / y) with 1 by (field; lra).
  destruct (Rlt_dec 1 0); [lra |].
  rewrite <- (Int_part_spec 1 1) by lra. lra.
Qed.

(** ** Degrees and radians *)

Lemma toRad_0 : toRad 0 = 0.
Proof. unfold toRad. field. Qed.

Lemma toDeg_0 : toDeg 0 = 0.
Proof. unfold toDeg. field. apply PI_neq0. Qed.

Lemma toDeg_range (rad : R) : - PI < rad <= PI -> -180 < toDeg rad <= 180.
Proof.
  intros Hr. pose proof PI_RGT_0 as Hpi. unfold toDeg.
  assert (rad * 180 / PI = 180 * (rad / PI)) as -> by (field; lra).
  assert (rad = (rad / PI) * PI) as Heq by (field; lra).
  set (t := rad / PI) in *. split; nra.
Qed.

(** A latitude in [-90, 90] has a non-negative cosine. *)
Lemma cos_latitude_nonneg (lat : R) : -90 <= lat <= 90 -> 0 <= cos (toRad lat).
Proof.
  intros Hl. pose proof PI_RGT_0 as Hpi.
  apply cos_ge_0; unfold toRad; nra.
Qed.

(** ** The haversine term *)

(** [a] of the distance formula lies in [0, 1] when both cosines are
    non-negative, so neither square root is taken of a negative number. *)
Lemma haversine_term_range (phi1 phi2 dLon : R) :
  0 <= cos phi1 -> 0 <= cos phi2 ->
  let dLat := phi2 - phi1 in
  let a :=
    sin (dLat / 2) * sin (dLat / 2) +
    cos phi1 * cos phi2 * sin (dLon / 2) * sin (dLon / 2) in
  0 <= a <= 1.
Proof.
  intros Hc1 Hc2. cbn zeta.
  pose proof (cos_2a_sin ((phi2 - phi1) / 2)) as Hhalf.
  replace (2 * ((phi2 - phi1) / 2)) with (phi2 - phi1) in Hhalf by field.
  rewrite cos_minus in Hhalf.
  pose proof (sin2_cos2 phi1) as H1. pose proof (sin2_cos2 phi2) as H2.
  pose proof (SIN_bound (dLon / 2)) as Hs.
  unfold Rsqr in H1, H2.
  set (s := sin ((phi2 - phi1) / 2)) in *.
  set (t := sin (dLon / 2)) in *.
  set (c1 := cos phi1) in *. set (c2 := cos phi2) in *.
  set (s1 := sin phi1) in *. set (s2 := sin phi2) in *.
  clearbody s t c1 c2 s1 s2.
  assert (0 <= t * t <= 1) as Ht by nra.
  assert (0 <= c1 * c2) as Hcc by (apply Rmult_le_pos; assumption).
  assert (c1 * c2 * t * t = (c1 * c2) * (t * t)) as -> by ring.
  assert (0 <= (c1 * c2) * (t * t) <= c1 * c2) as Hprod.
  { split; [apply Rmult_le_pos; lra |].
    rewrite <- (Rmult_1_r (c1 * c2)) at 2.
    apply Rmult_le_compat_l; lra. }
  pose proof (Rle_0_sqr s) as Hs0. unfold Rsqr in Hs0.
  pose proof (Rle_0_sqr (c1 - c2)) as Hd1. unfold Rsqr in Hd1.
  pose proof (Rle_0_sqr (s1 + s2)) as Hd2. unfold Rsqr in Hd2.
  split; [lra |].
  assert ((c1 - c2) * (c1 - c2) + (s1 + s2) * (s1 + s2)
          = 2 - 2 * (c1 * c2 - s1 * s2)) as Hsq by (ring_simplify; lra).
  lra.
Qed.

(** An observer at the target itself: both components of the bearing
    vanish, and so does the haversine term. *)
Lemma computeQibla_same_point (lat lng : R) :
  computeQibla lat lng lat lng = {| qiblaBearing := 0; distance := Some 0 |}.
Proof.
  unfold computeQibla. cbn zeta.
  replace (lng - lng) with 0 by ring.
  replace (toRad lat - toRad lat) with 0 by ring.
  replace (toRad lng - toRad lng) with 0 by ring.
  replace (0 / 2) with 0 by field.
  rewrite toRad_0, sin_0, cos_0.
  replace (0 * cos (toRad lat)) with 0 by ring.
  replace (cos (toRad lat) * sin (toRad lat)
           - sin (toRad lat) * cos (toRad lat) * 1) with 0 by ring.
  rewrite Math_atan2_0_0, toDeg_0.
  replace (0 + 360) with 360 by ring.
  rewrite remainder_self by lra.
  replace (0 * 0 + cos (toRad lat) * cos (toRad lat) * 0 * 0) with 0 by ring.
  replace (1 - 0) with 1 by ring.
  rewrite !Math_sqrt_defined by lra.
  rewrite sqrt_0, sqrt_1, Math_atan2_0_1.
  replace (6371 * (2 * 0)) with 0 by ring.
  now rewrite Math_round_0.
Qed.



(** C9.  With the observer at the Kaaba coordinate itself the component
    stores a bearing of 0 and a distance of 0; the general formulas give
    these values, and no branch of their own treats the case. *)
Theorem calculateQibla_at_the_kaaba :
  calculateQibla KAABA_LAT KAABA_LNG =
    {| qiblaBearing := 0; distance := Some 0 |}.
Proof. unfold calculateQibla. apply computeQibla_same_point. Qed.

End QiblaGeometry.

(** * Further properties of the selector *)

Section SelectorReading.
Import JsNumber JsString App SelectorView.
Local Open Scope Z_scope.

(** ** Reading a time *)

Lemma Number_cases (s : string) :
  Number s = NaN \/ exists z, 0 <= z /\ Number s = Fin z.
Proof.
  unfold Number. destruct (all_digits s) eqn:Hd; [right | now left].
  exists (decimal_value 0 s). split; [| reflexivity].
  assert (forall t acc, all_digits t = true -> 0 <= acc ->
                        0 <= decimal_value acc t) as H.
  { induction t as [| c t IH]; intros acc Ht Hacc; cbn [decimal_value];
      [exact Hacc |].
    cbn [all_digits] in Ht. apply andb_true_iff in Ht as [Hc Ht].
    apply IH; [exact Ht |].
    unfold is_digit in Hc. apply andb_true_iff in Hc as [Hlo _].
    apply Nat.leb_le in Hlo. unfold digit_value. lia. }
  now apply H.
Qed.

(** A time is read as NaN or as a number of minutes that is not negative. *)
Lemma timeMinutes_cases (t : string) :
  timeMinutes t = NaN \/ exists z, 0 <= z /\ timeMinutes t = Fin z.
Proof.
  unfold timeMinutes.
  destruct (split_colon t) as [| h [| m rest]]; cbn [map]; try now left.
  destruct (Number_cases h) as [-> | [x [Hx ->]]]; [now left |].
  destruct (Number_cases m) as [-> | [y [Hy ->]]]; [now left |].
  right. exists (x * 60 + y). split; [lia | reflexivity].
Qed.

Lemma prayerMinutes_cases (mm : number) (p : PrayerTime) :
  prayerMinutes mm p = NaN \/ exists z, 0 <= z /\ prayerMinutes mm p = Fin z.
Proof.
  unfold prayerMinutes.
  destruct (timeMinutes_cases (time p)) as [-> | [z [Hz ->]]].
  - left. now destruct (isNightPrayer p && lt NaN mm).
  - right. destruct (isNightPrayer p && lt (Fin z) mm).
    + exists (z + 24 * 60). split; [lia | reflexivity].
    + now exists z.
Qed.

Lemma digit_is_not_colon (c : ascii) :
  is_digit c = true -> Ascii.eqb c ":"%char = false.
Proof.
  intros Hd. apply Ascii.eqb_neq. intros ->. discriminate Hd.
Qed.

Lemma append_assoc_char (cur : string) (c : ascii) (s : string) :
  ((cur ++ String c EmptyString) ++ s)%string = (cur ++ String c s)%string.
Proof. induction cur as [| a cur IH]; simpl; [reflexivity | now rewrite IH]. Qed.

Lemma append_empty_r (s : string) : (s ++ "")%string = s.
Proof. induction s as [| a s IH]; simpl; [reflexivity | now rewrite IH]. Qed.

(** A run of digits is one field. *)
Lemma split_colon_aux_digits (s : string) :
  all_digits s = true ->
  forall cur, split_colon_aux cur s = [(cur ++ s)%string].
Proof.
  induction s as [| c s IH]; intros Hd cur; simpl.
  - now rewrite append_empty_r.
  - simpl in Hd. apply andb_true_iff in Hd as [Hc Hs].
    rewrite (digit_is_not_colon c Hc), IH by exact Hs.
    now rewrite append_assoc_char.
Qed.

(** A run of digits before a colon is the first field. *)
Lemma split_colon_aux_field (s rest : string) :
  all_digits s = true ->
  forall cur,
    split_colon_aux cur (s ++ String ":"%char rest) =
    (cur ++ s)%string :: split_colon_aux EmptyString rest.
Proof.
  induction s as [| c s IH]; intros Hd cur; simpl.
  - now rewrite append_empty_r.
  - simpl in Hd. apply andb_true_iff in Hd as [Hc Hs].
    rewrite (digit_is_not_colon c Hc), IH by exact Hs.
    now rewrite append_assoc_char.
Qed.

Lemma timeMinutes_digit_fields (s1 s2 : string) :
  all_digits s1 = true -> all_digits s2 = true ->
  timeMinutes (s1 ++ String ":"%char s2) =
  Fin (decimal_value 0 s1 * 60 + decimal_value 0 s2).
Proof.
  intros H1 H2. unfold timeMinutes, split_colon.
  rewrite split_colon_aux_field by exact H1.
  rewrite split_colon_aux_digits by exact H2.
  cbn [map String.append]. unfold Number. now rewrite H1, H2.
Qed.

Lemma digitChar_value (k : Z) :
  0 <= k <= 9 ->
  is_digit (digitChar k) = true /\ digit_value (digitChar k) = k.
Proof.
  intros Hk. unfold is_digit, digit_value, digitChar.
  rewrite nat_ascii_embedding by lia.
  split; [| lia].
  apply andb_true_iff. split; apply Nat.leb_le; lia.
Qed.

Lemma twoDigits_value (n : Z) :
  0 <= n < 100 ->
  all_digits (twoDigits n) = true /\ decimal_value 0 (twoDigits n) = n.
Proof.
  intros Hn.
  assert (0 <= n / 10 <= 9) as Hq by (Z.div_mod_to_equations; lia).
  assert (0 <= n mod 10 <= 9) as Hr by (Z.div_mod_to_equations; lia).
  destruct (digitChar_value _ Hq) as [Hd1 Hv1].
  destruct (digitChar_value _ Hr) as [Hd2 Hv2].
  unfold twoDigits. cbn [all_digits decimal_value].
  rewrite Hd1, Hd2, Hv1, Hv2. split; [reflexivity |].
  Z.div_mod_to_equations. lia.
Qed.

(** X1.  A time written [HH:mm], two digits for the hour and two for the
    minute, is read as 60 times the hour plus the minute. *)
Theorem timeMinutes_reads_HHmm :
  forall h m : Z,
    0 <= h < 24 -> 0 <= m < 60 ->
    timeMinutes (formatHHmm h m) = Fin (h * 60 + m).
Proof.
  intros h m Hh Hm. unfold formatHHmm.
  destruct (twoDigits_value h) as [Hd1 Hv1]; [lia |].
  destruct (twoDigits_value m) as [Hd2 Hv2]; [lia |].
  change (":" ++ twoDigits m)%string with (String ":"%char (twoDigits m)).
  rewrite timeMinutes_digit_fields by assumption.
  now rewrite Hv1, Hv2.
Qed.

Lemma timeMinutes_reads_HHmm_witness :
  timeMinutes (formatHHmm 4 15) = Fin (4 * 60 + 15).
Proof. apply (timeMinutes_reads_HHmm 4 15); lia. Defined.

End SelectorReading.

Section SelectorChoice.
Import JsNumber JsString App SelectorView Fixtures GeminiService TimeFormat.
Local Open Scope Z_scope.

(** ** A time without a colon *)

Lemma split_colon_aux_no_colon (s : string) :
  no_colon s = true ->
  forall cur, split_colon_aux cur s = [(cur ++ s)%string].
Proof.
  induction s as [| c s IH]; intros Hs cur; simpl.
  - now rewrite append_empty_r.
  - simpl in Hs. apply andb_true_iff in Hs as [Hc Hs].
    apply negb_true_iff in Hc. rewrite Hc, IH by exact Hs.
    now rewrite append_assoc_char.
Qed.

(** X2.  An entry whose time has no colon has NaN for its minutes: whatever
    the boundary and the current time, the scan does not see it as later
    and leaves its state as it is. *)
Theorem time_without_colon_is_never_later :
  forall (p : PrayerTime) (mm cur : number) (st : Scan) (idx : Z),
    no_colon (time p) = true ->
    prayerMinutes mm p = NaN /\
    gt (prayerMinutes mm p) cur = false /\
    visit mm cur st p idx = st.
Proof.
  intros p mm cur st idx Hp.
  assert (prayerMinutes mm p = NaN) as Hnan.
  { unfold prayerMinutes, timeMinutes, split_colon.
    rewrite split_colon_aux_no_colon by exact Hp. cbn [map].
    now destruct (isNightPrayer p && lt NaN mm). }
  unfold visit. rewrite Hnan. repeat split; now destruct cur.
Qed.

Lemma time_without_colon_is_never_later_witness :
  prayerMinutes (Fin 1080) (entry "Dhuhr" "الظهر" "1155") = NaN /\
  gt (prayerMinutes (Fin 1080) (entry "Dhuhr" "الظهر" "1155")) (Fin 600)
    = false /\
  visit (Fin 1080) (Fin 600) {| nextPrayerIndex := -1; minDiff := Infinity |}
    (entry "Dhuhr" "الظهر" "1155") 3
    = {| nextPrayerIndex := -1; minDiff := Infinity |}.
Proof.
  apply (time_without_colon_is_never_later (entry "Dhuhr" "الظهر" "1155")).
  reflexivity.
Defined.

(** ** What the scan finds *)

Lemma minutesAhead_Some (mm : number) (c : Z) (p : PrayerTime) (d : Z) :
  minutesAhead mm (Fin c) p = Some d <->
  exists n, prayerMinutes mm p = Fin n /\ c < n /\ d = n - c.
Proof.
  unfold minutesAhead. split.
  - destruct (prayerMinutes mm p) as [| | n |]; try discriminate.
    destruct (Z.ltb_spec c n); [| discriminate].
    intros [= <-]. now exists n.
  - intros [n [-> [Hlt ->]]].
    now destruct (Z.ltb_spec c n); [| lia].
Qed.

Lemma later_minutesAhead (mm : number) (c : Z) (p : PrayerTime) :
  gt (prayerMinutes mm p) (Fin c) = true <->
  exists d, minutesAhead mm (Fin c) p = Some d.
Proof.
  unfold gt, minutesAhead.
  destruct (prayerMinutes_cases mm p) as [-> | [n [_ ->]]]; cbn [lt].
  - split; [discriminate | intros [d Hd]; discriminate].
  - destruct (Z.ltb_spec c n); split; try discriminate; eauto.
    intros [d Hd]; discriminate.
Qed.

(** One step of the loop, in terms of the minutes ahead. *)
Lemma visit_minutesAhead (mm : number) (c : Z) (i0 : Z) (o : option Z)
    (p : PrayerTime) (idx : Z) :
  visit mm (Fin c) {| nextPrayerIndex := i0; minDiff := ofBest o |} p idx =
  match minutesAhead mm (Fin c) p with
  | Some d =>
      match o with
      | Some d0 =>
          if d <? d0
          then {| nextPrayerIndex := idx; minDiff := ofBest (Some d) |}
          else {| nextPrayerIndex := i0; minDiff := ofBest o |}
      | None => {| nextPrayerIndex := idx; minDiff := ofBest (Some d) |}
      end
  | None => {| nextPrayerIndex := i0; minDiff := ofBest o |}
  end.
Proof.
  unfold visit, minutesAhead, gt.
  destruct (prayerMinutes_cases mm p) as [-> | [n [_ ->]]]; cbn [lt];
    [reflexivity |].
  destruct (Z.ltb_spec c n); [| reflexivity].
  cbn [sub add neg minDiff].
  replace (n + - c) with (n - c) by lia.
  destruct o as [d0 |]; reflexivity.
Qed.

(** The scan keeps the first entry among those the fewest minutes ahead:
    its result is the entry state, or an entry [j] that is strictly
    nearer than the entry state and than every entry before it, and no
    entry is nearer than the result. *)
Lemma forEach_visit_nearest (mm : number) (c : Z) (l : list PrayerTime) :
  forall (idx i0 : Z) (o : option Z),
  exists (i' : Z) (o' : option Z),
    forEach (visit mm (Fin c)) idx l
      {| nextPrayerIndex := i0; minDiff := ofBest o |} =
      {| nextPrayerIndex := i'; minDiff := ofBest o' |} /\
    (forall j q d, nth_error l j = Some q ->
                   minutesAhead mm (Fin c) q = Some d ->
                   exists d', o' = Some d' /\ d' <= d) /\
    (forall d0, o = Some d0 -> exists d', o' = Some d' /\ d' <= d0) /\
    ((i' = i0 /\ o' = o) \/
     exists j q d,
       nth_error l j = Some q /\ minutesAhead mm (Fin c) q = Some d /\
       i' = idx + Z.of_nat j /\ o' = Some d /\
       (forall d0, o = Some d0 -> d < d0) /\
       (forall j' q' d', (j' < j)%nat -> nth_error l j' = Some q' ->
                         minutesAhead mm (Fin c) q' = Some d' -> d < d')).
Proof.
  induction l as [| p l IH]; intros idx i0 o.
  - exists i0, o. split; [reflexivity |]. split; [| split].
    + intros [| j] q d Hq; discriminate Hq.
    + intros d0 ->. exists d0. split; [reflexivity | lia].
    + now left.
  - cbn [forEach]. rewrite visit_minutesAhead.
    destruct (minutesAhead mm (Fin c) p) as [dp |] eqn:Hp.
    + (* [p] is ahead *)
      assert ((exists d0, o = Some d0 /\ dp >= d0) \/
              (forall d0, o = Some d0 -> dp < d0)) as [[d0 [-> Hge]] | Hnear].
      { destruct o as [d0 |]; [| right; discriminate].
        destruct (Z.lt_ge_cases dp d0); [right | left].
        - intros ? [= <-]. assumption.
        - exists d0. split; [reflexivity | lia]. }
      * (* not nearer than the entry state *)
        replace (dp <? d0) with false by (symmetry; apply Z.ltb_ge; lia).
        destruct (IH (idx + 1) i0 (Some d0)) as (i' & o' & Hrun & Hmin & Hle & Hsel).
        exists i', o'. split; [exact Hrun |]. split; [| split].
        -- intros [| j] q d Hq Hd.
           ++ cbn in Hq. injection Hq as <-. rewrite Hp in Hd. injection Hd as <-.
              destruct (Hle d0 eq_refl) as [d' [-> Hd']]. exists d'. split; [reflexivity | lia].
           ++ exact (Hmin j q d Hq Hd).
        -- exact Hle.
        -- destruct Hsel as [Hsame | (j & q & d & Hq & Hd & -> & -> & Hlt & Hbefore)];
             [now left | right].
           exists (S j), q, d. repeat split; try assumption; try lia.
           intros [| j'] q' d' Hj' Hq' Hd'.
           ++ cbn in Hq'. injection Hq' as <-. rewrite Hp in Hd'. injection Hd' as <-.
              specialize (Hlt d0 eq_refl). lia.
           ++ apply (Hbefore j' q' d'); [lia | assumption | assumption].
      * (* nearer: the state is replaced *)
        assert ((match o with
                 | Some d0 =>
                     if dp <? d0
                     then {| nextPrayerIndex := idx; minDiff := ofBest (Some dp) |}
                     else {| nextPrayerIndex := i0; minDiff := ofBest o |}
                 | None => {| nextPrayerIndex := idx; minDiff := ofBest (Some dp) |}
                 end) = {| nextPrayerIndex := idx; minDiff := ofBest (Some dp) |})
          as ->.
        { destruct o as [d0 |]; [| reflexivity].
          specialize (Hnear d0 eq_refl).
          now replace (dp <? d0) with true by (symmetry; apply Z.ltb_lt; lia). }
        destruct (IH (idx + 1) idx (Some dp)) as (i' & o' & Hrun & Hmin & Hle & Hsel).
        exists i', o'. split; [exact Hrun |].
        destruct (Hle dp eq_refl) as [d' [Ho' Hd']].
        split; [| split].
        -- intros [| j] q d Hq Hd.
           ++ cbn in Hq. injection Hq as <-. rewrite Hp in Hd. injection Hd as <-.
              exists d'. split; [exact Ho' | lia].
           ++ exact (Hmin j q d Hq Hd).
        -- intros d0 Ho. exists d'. split; [exact Ho' |].
           specialize (Hnear d0 Ho). lia.
        -- right.
           destruct Hsel as [[-> ->] | (j & q & d & Hq & Hd & -> & -> & Hlt & Hbefore)].
           ++ exists 0%nat, p, dp. repeat split; try assumption; try lia.
           ++ exists (S j), q, d. specialize (Hlt dp eq_refl).
              repeat split; try assumption; try lia.
              ** intros d0 Ho. specialize (Hnear d0 Ho). lia.
              ** intros [| j'] q' d'' Hj' Hq' Hd''.
                 --- cbn in Hq'. injection Hq' as <-. rewrite Hp in Hd''.
                     injection Hd'' as <-. lia.
                 --- apply (Hbefore j' q' d''); [lia | assumption | assumption].
    + (* [p] is not ahead *)
      destruct (IH (idx + 1) i0 o) as (i' & o' & Hrun & Hmin & Hle & Hsel).
      exists i', o'. split; [exact Hrun |]. split; [| split].
      * intros [| j] q d Hq Hd.
        -- cbn in Hq. injection Hq as <-. rewrite Hp in Hd. discriminate Hd.
        -- exact (Hmin j q d Hq Hd).
      * exact Hle.
      * destruct Hsel as [Hsame | (j & q & d & Hq & Hd & -> & -> & Hlt & Hbefore)];
          [now left | right].
        exists (S j), q, d. repeat split; try assumption; try lia.
        intros [| j'] q' d' Hj' Hq' Hd'.
        -- cbn in Hq'. injection Hq' as <-. rewrite Hp in Hd'. discriminate Hd'.
        -- apply (Hbefore j' q' d'); [lia | assumption | assumption].
Qed.

(** The index selected when some entry is later than now. *)
Lemma selectedIndex_nearest (ps : list PrayerTime) (now : Date) :
  Exists (fun p => gt (prayerMinutes (maghribMinutes ps) p)
                      (currentMinutes now) = true) ps ->
  exists (k : nat) (p : PrayerTime) (d : Z),
    selectedIndex ps now = Z.of_nat k /\
    nth_error ps k = Some p /\
    minutesAhead (maghribMinutes ps) (currentMinutes now) p = Some d /\
    (forall j q d', nth_error ps j = Some q ->
                    minutesAhead (maghribMinutes ps) (currentMinutes now) q
                      = Some d' -> d <= d') /\
    (forall j q d', (j < k)%nat -> nth_error ps j = Some q ->
                    minutesAhead (maghribMinutes ps) (currentMinutes now) q
                      = Some d' -> d < d').
Proof.
  intros Hex. unfold selectedIndex, scanPrayers, currentMinutes in *.
  set (c := getHours now * 60 + getMinutes now) in *.
  set (mm := maghribMinutes ps) in *.
  destruct (forEach_visit_nearest mm c ps 0 (-1) None)
    as (i' & o' & Hrun & Hmin & _ & Hsel).
  cbn [ofBest] in Hrun. rewrite Hrun. cbn [nextPrayerIndex].
  apply Exists_exists in Hex as (q0 & Hin & Hgt).
  apply later_minutesAhead in Hgt as [d0 Hd0].
  apply In_nth_error in Hin as [j0 Hj0].
  destruct (Hmin j0 q0 d0 Hj0 Hd0) as [d' [Ho' _]].
  destruct Hsel as [[_ Hnone] | (j & q & d & Hq & Hd & -> & -> & _ & Hbefore)];
    [congruence |].
  exists j, q, d.
  replace (0 + Z.of_nat j =? -1) with false by (symmetry; apply Z.eqb_neq; lia).
  repeat split; try assumption; try lia.
  intros j1 q1 d1 Hq1 Hd1.
  destruct (Hmin j1 q1 d1 Hq1 Hd1) as [d2 [[= <-] Hle]]. exact Hle.
Qed.

(** X3.  In a schedule whose times all have the [HH:mm] format, when some
    entry is later than the current time, the entry selected is later than
    the current time too, and no entry that is later than the current time
    has a smaller adjusted minutes value. *)
Theorem selected_prayer_is_the_nearest_later_one :
  forall (ps : list PrayerTime) (now : Date),
    Forall (fun p => isHHmm (time p) = true) ps ->
    Exists (fun p => gt (prayerMinutes (maghribMinutes ps) p)
                        (currentMinutes now) = true) ps ->
    exists (p : PrayerTime) (m : Z),
      0 <= selectedIndex ps now /\
      nth_error ps (Z.to_nat (selectedIndex ps now)) = Some p /\
      prayerMinutes (maghribMinutes ps) p = Fin m /\
      getHours now * 60 + getMinutes now < m /\
      forall (q : PrayerTime) (n : Z),
        In q ps ->
        prayerMinutes (maghribMinutes ps) q = Fin n ->
        getHours now * 60 + getMinutes now < n ->
        m <= n.
Proof.
  intros ps now _ Hex.
  destruct (selectedIndex_nearest ps now Hex)
    as (k & p & d & Hk & Hp & Hd & Hmin & _).
  unfold currentMinutes in *.
  apply minutesAhead_Some in Hd as (m & Hm & Hlt & ->).
  exists p, m. rewrite Hk, Nat2Z.id.
  repeat split; try assumption; try lia.
  intros q n Hin Hn Hcn.
  apply In_nth_error in Hin as [j Hj].
  assert (minutesAhead (maghribMinutes ps)
            (Fin (getHours now * 60 + getMinutes now)) q
          = Some (n - (getHours now * 60 + getMinutes now))) as Hq
    by (apply minutesAhead_Some; now exists n).
  specialize (Hmin j q _ Hj Hq). lia.
Qed.

Lemma selected_prayer_is_the_nearest_later_one_witness :
  exists (p : PrayerTime) (m : Z),
    0 <= selectedIndex (prayers FALLBACK_DATA) (at_ friday 16 40) /\
    nth_error (prayers FALLBACK_DATA)
      (Z.to_nat (selectedIndex (prayers FALLBACK_DATA) (at_ friday 16 40)))
      = Some p /\
    prayerMinutes (maghribMinutes (prayers FALLBACK_DATA)) p = Fin m /\
    getHours (at_ friday 16 40) * 60 + getMinutes (at_ friday 16 40) < m /\
    forall (q : PrayerTime) (n : Z),
      In q (prayers FALLBACK_DATA) ->
      prayerMinutes (maghribMinutes (prayers FALLBACK_DATA)) q = Fin n ->
      getHours (at_ friday 16 40) * 60 + getMinutes (at_ friday 16 40) < n ->
      m <= n.
Proof.
  apply (selected_prayer_is_the_nearest_later_one (prayers FALLBACK_DATA)
           (at_ friday 16 40)).
  { repeat constructor. }
  apply Exists_exists. exists (entry "Maghrib" "المغرب" "18:05").
  split; [cbn; tauto | reflexivity].
Defined.

(** X4.  Ties go to the entry met first: an entry that stands before the
    selected one and is later than the current time has a strictly larger
    adjusted minutes value than the selected one. *)
Theorem earlier_entries_are_strictly_farther :
  forall (ps : list PrayerTime) (now : Date) (p q : PrayerTime) (m n : Z)
         (j : nat),
    nth_error ps (Z.to_nat (selectedIndex ps now)) = Some p ->
    prayerMinutes (maghribMinutes ps) p = Fin m ->
    getHours now * 60 + getMinutes now < m ->
    nth_error ps j = Some q ->
    Z.of_nat j < selectedIndex ps now ->
    prayerMinutes (maghribMinutes ps) q = Fin n ->
    getHours now * 60 + getMinutes now < n ->
    m < n.
Proof.
  intros ps now p q m n j Hp Hm Hcm Hq Hj Hn Hcn.
  assert (Exists (fun p => gt (prayerMinutes (maghribMinutes ps) p)
                              (currentMinutes now) = true) ps) as Hex.
  { apply Exists_exists. exists q. split; [eapply nth_error_In; eassumption |].
    apply later_minutesAhead. eexists. apply minutesAhead_Some. now exists n. }
  destruct (selectedIndex_nearest ps now Hex)
    as (k & p' & d & Hk & Hp' & Hd & _ & Hbefore).
  rewrite Hk, Nat2Z.id in Hp. rewrite Hk in Hj.
  assert (p' = p) as -> by congruence.
  unfold currentMinutes in *.
  apply minutesAhead_Some in Hd as (m' & Hm' & _ & ->).
  assert (m' = m) as -> by congruence.
  assert (minutesAhead (maghribMinutes ps)
            (Fin (getHours now * 60 + getMinutes now)) q
          = Some (n - (getHours now * 60 + getMinutes now))) as Hqd
    by (apply minutesAhead_Some; now exists n).
  specialize (Hbefore j q _ ltac:(lia) Hq Hqd). lia.
Qed.

(** A schedule in which Dhuhr and Duha carry the same time, after Asr. *)
Lemma earlier_entries_are_strictly_farther_witness :
  805 < 920.
Proof.
  apply (earlier_entries_are_strictly_farther
           [ entry "Asr" "العصر" "15:20"; entry "Dhuhr" "الظهر" "13:25";
             entry "Duha" "الضحى" "13:25" ]
           (at_ friday 13 0)
           (entry "Dhuhr" "الظهر" "13:25") (entry "Asr" "العصر" "15:20")
           805 920 0%nat); try reflexivity; lia.
Defined.

(** X5.  In a schedule whose times all have the [HH:mm] format, when an
    entry later than the current time has an adjusted value below 1440,
    the selected entry is compared at its own clock time: a night entry
    moved to the next day is passed over, even when its clock time comes
    first. *)
Theorem shifted_entry_yields_to_unshifted :
  forall (ps : list PrayerTime) (now : Date) (q : PrayerTime) (n : Z),
    Forall (fun p => isHHmm (time p) = true) ps ->
    In q ps ->
    prayerMinutes (maghribMinutes ps) q = Fin n ->
    getHours now * 60 + getMinutes now < n < 1440 ->
    exists p,
      nth_error ps (Z.to_nat (selectedIndex ps now)) = Some p /\
      prayerMinutes (maghribMinutes ps) p = timeMinutes (time p).
Proof.
  intros ps now q n _ Hin Hn [Hcn Hday].
  assert (Exists (fun p => gt (prayerMinutes (maghribMinutes ps) p)
                              (currentMinutes now) = true) ps) as Hex.
  { apply Exists_exists. exists q. split; [exact Hin |].
    apply later_minutesAhead. eexists. apply minutesAhead_Some. now exists n. }
  destruct (selectedIndex_nearest ps now Hex)
    as (k & p & d & Hk & Hp & Hd & Hmin & _).
  unfold currentMinutes in *.
  apply minutesAhead_Some in Hd as (m & Hm & Hlt & ->).
  exists p. rewrite Hk, Nat2Z.id. split; [exact Hp |].
  assert (m <= n) as Hmn.
  { apply In_nth_error in Hin as [j Hj].
    assert (minutesAhead (maghribMinutes ps)
              (Fin (getHours now * 60 + getMinutes now)) q
            = Some (n - (getHours now * 60 + getMinutes now))) as Hq
      by (apply minutesAhead_Some; now exists n).
    specialize (Hmin j q _ Hj Hq). lia. }
  revert Hm. unfold prayerMinutes.
  destruct (isNightPrayer p && lt (timeMinutes (time p)) (maghribMinutes ps));
    [| reflexivity].
  destruct (timeMinutes_cases (time p)) as [-> | [z [Hz ->]]];
    [discriminate |].
  cbn [add]. intros [= <-]. lia.
Qed.

(** At 00:30 the fallback schedule has Fajr at 04:15 ahead; the entry
    selected is Fajr, at index 0, though LastThird is at 01:15. *)
Lemma shifted_entry_yields_to_unshifted_witness :
  exists p,
    nth_error (prayers FALLBACK_DATA)
      (Z.to_nat (selectedIndex (prayers FALLBACK_DATA) (at_ friday 0 30)))
      = Some p /\
    prayerMinutes (maghribMinutes (prayers FALLBACK_DATA)) p
      = timeMinutes (time p).
Proof.
  apply (shifted_entry_yields_to_unshifted (prayers FALLBACK_DATA)
           (at_ friday 0 30) (entry "Fajr" "الفجر" "04:15") 255).
  - repeat constructor.
  - cbn; tauto.
  - reflexivity.
  - cbn; lia.
Defined.

(** ** Marking again *)

Lemma sameEntry_prayerMinutes (mm : number) (p q : PrayerTime) :
  sameEntry p q -> prayerMinutes mm q = prayerMinutes mm p.
Proof.
  intros (Hn & Ha & Ht). unfold prayerMinutes, isNightPrayer.
  now rewrite Hn, Ha, Ht.
Qed.

Lemma sameEntry_maghribMinutes (l l' : list PrayerTime) :
  Forall2 sameEntry l l' -> maghribMinutes l' = maghribMinutes l.
Proof.
  unfold maghribMinutes.
  induction 1 as [| p q l l' (Hn & Ha & Ht) _ IH]; [reflexivity |].
  cbn [find]. unfold isMaghrib at 1 3. rewrite Hn, Ha.
  destruct (String.eqb (toLowerCase (name p)) "maghrib"
            || includes (nameArabic p) "المغرب"); [now rewrite Ht | exact IH].
Qed.

Lemma sameEntry_forEach (mm cur : number) (l l' : list PrayerTime) :
  Forall2 sameEntry l l' ->
  forall idx st,
    forEach (visit mm cur) idx l' st = forEach (visit mm cur) idx l st.
Proof.
  induction 1 as [| p q l l' Hpq _ IH]; intros idx st; [reflexivity |].
  cbn [forEach]. rewrite IH. unfold visit.
  now rewrite (sameEntry_prayerMinutes mm p q Hpq).
Qed.

Lemma sameEntry_selectedIndex (l l' : list PrayerTime) (now : Date) :
  Forall2 sameEntry l l' -> selectedIndex l' now = selectedIndex l now.
Proof.
  intros H. unfold selectedIndex, scanPrayers.
  now rewrite (sameEntry_maghribMinutes l l' H), (sameEntry_forEach _ _ l l' H).
Qed.

Lemma sameEntry_with_isNext (p q : PrayerTime) (b : bool) :
  sameEntry p q -> with_isNext q b = with_isNext p b.
Proof. intros (Hn & Ha & Ht). unfold with_isNext. now rewrite Hn, Ha, Ht. Qed.

Lemma sameEntry_mapi (l l' : list PrayerTime) (k : Z) :
  Forall2 sameEntry l l' ->
  forall idx,
    mapi (fun p i => with_isNext p (i =? k)) idx l' =
    mapi (fun p i => with_isNext p (i =? k)) idx l.
Proof.
  induction 1 as [| p q l l' Hpq _ IH]; intros idx; [reflexivity |].
  cbn [mapi]. now rewrite IH, (sameEntry_with_isNext p q _ Hpq).
Qed.

Lemma sameEntry_map (l l' : list PrayerTime) :
  Forall2 sameEntry l l' ->
  map (fun p => with_isNext p false) l' = map (fun p => with_isNext p false) l.
Proof.
  induction 1 as [| p q l l' Hpq _ IH]; [reflexivity |].
  cbn [map]. now rewrite IH, (sameEntry_with_isNext p q _ Hpq).
Qed.

(** The flags of the input play no part in the result. *)
Lemma markNextPrayer_sameEntry (data : DailyData) (ps : list PrayerTime)
    (targetDate now : Date) :
  Forall2 sameEntry (prayers data) ps ->
  markNextPrayer (with_prayers data ps) targetDate now =
  markNextPrayer data targetDate now.
Proof.
  intros H. unfold markNextPrayer.
  destruct (negb (isToday targetDate now)); cbn [with_prayers prayers
    gregorianDate hijri city timezone quote]; unfold with_prayers;
    cbn [gregorianDate hijri city timezone quote]; f_equal.
  - now apply sameEntry_map.
  - rewrite (sameEntry_selectedIndex _ _ now H). now apply sameEntry_mapi.
Qed.

(** X6.  Marking a schedule that was marked before, as the one-minute
    timer does, gives what marking the original schedule at the later
    moment gives: earlier flags leave no trace. *)
Theorem marking_again_forgets_earlier_flags :
  forall (data : DailyData) (targetDate1 now1 targetDate2 now2 : Date),
    markNextPrayer (markNextPrayer data targetDate1 now1) targetDate2 now2 =
    markNextPrayer data targetDate2 now2.
Proof.
  intros data t1 n1 t2 n2.
  unfold markNextPrayer at 2.
  destruct (negb (isToday t1 n1)).
  - apply markNextPrayer_sameEntry. apply map_unflag_fields.
  - cbn zeta. apply markNextPrayer_sameEntry. apply mapi_flag_fields.
Qed.

(** ** Schedules built by the service *)

(** X7.  In a schedule built by [fetchDailyIslamicData], whatever the nine
    formatted times, the Maghrib entry is found, so the boundary is its
    time and never the 18:00 default, and the entries treated as night
    prayers are the last three: Isha, Midnight and LastThird. *)
Theorem calculatedPrayers_boundary_and_night_entries :
  forall t : FormattedTimes,
    maghribMinutes (calculatedPrayers t) = timeMinutes (maghrib t) /\
    map isNightPrayer (calculatedPrayers t) =
      [false; false; false; false; false; false; true; true; true] /\
    map isMaghrib (calculatedPrayers t) =
      [false; false; false; false; false; true; false; false; false].
Proof. intros t. repeat split; reflexivity. Qed.

End SelectorChoice.

(** * Further properties of the compass *)

Section HeadingInvariants.
Import QiblaCompass CompassFixtures.
Local Open Scope R_scope.

(** The correction on whole degrees: a whole number, at most 180 in
    absolute value. *)
Lemma shortestDelta_whole (c r : Z) :
  (0 <= c <= 360)%Z -> (0 <= r <= 360)%Z ->
  exists d j : Z,
    shortestDelta (IZR c) (IZR r) = IZR d /\
    d = (c - r + 360 * j)%Z /\ (- 180 <= d <= 180)%Z.
Proof.
  intros Hc Hr. unfold shortestDelta. cbn zeta.
  rewrite <- minus_IZR.
  destruct (Rlt_dec (IZR (c - r)) (-180)) as [Hlow | Hlow].
  - apply lt_IZR in Hlow. rewrite <- plus_IZR.
    destruct (Rlt_dec 180 (IZR (c - r + 360))) as [Hup | _];
      [apply lt_IZR in Hup; lia |].
    exists (c - r + 360)%Z, 1%Z. repeat split; lia.
  - assert (- 180 <= c - r)%Z as Hlow'
      by (destruct (Z.lt_ge_cases (c - r) (-180)) as [H | H];
          [apply IZR_lt in H; contradiction | lia]).
    destruct (Rlt_dec 180 (IZR (c - r))) as [Hup | Hup].
    + apply lt_IZR in Hup. rewrite <- minus_IZR.
      exists (c - r - 360)%Z, (-1)%Z. repeat split; lia.
    + assert (c - r <= 180)%Z
        by (destruct (Z.lt_ge_cases 180 (c - r)) as [H | H];
            [apply IZR_lt in H; contradiction | lia]).
      exists (c - r)%Z, 0%Z. repeat split; lia.
Qed.

(** X8.  Through a sequence of at most 10^12 events from the reset state,
    each reporting a whole number of degrees from 0 to 360, the
    accumulated heading is a whole number, at most 180 times the number of
    events in absolute value (so every sum of the filter is a double), and
    it differs from the raw heading by a whole number of turns; the dial
    is turned to minus the raw heading, up to full turns. *)
Theorem smooth_heading_is_raw_heading_up_to_turns :
  forall events : list OrientationEvent,
    Forall (fun e => exists c : Z,
                (0 <= c <= 360)%Z /\ compassHeading e = IZR c) events ->
    (Z.of_nat (List.length events) <= 1000000000000)%Z ->
    let s := session events in
    rawHeading s = lastHeadingRef s /\
    exists n k : Z,
      smoothHeading s = IZR n /\
      (Z.abs n <= 180 * Z.of_nat (List.length events))%Z /\
      smoothHeading s = rawHeading s + 360 * IZR k /\
      dialRotation s = - rawHeading s - 360 * IZR k.
Proof.
  intros events Hwhole _. cbn zeta. unfold session.
  assert (forall evs s (r n k : Z) (bound : Z),
             Forall (fun e => exists c : Z,
                         (0 <= c <= 360)%Z /\ compassHeading e = IZR c) evs ->
             rawHeading s = IZR r -> lastHeadingRef s = IZR r ->
             (0 <= r <= 360)%Z ->
             smoothHeading s = IZR n -> n = (r + 360 * k)%Z ->
             (Z.abs n <= bound)%Z ->
             let s' := fold_left handleOrientation evs s in
             rawHeading s' = lastHeadingRef s' /\
             exists n' k' : Z,
               smoothHeading s' = IZR n' /\
               (Z.abs n' <= bound + 180 * Z.of_nat (List.length evs))%Z /\
               smoothHeading s' = rawHeading s' + 360 * IZR k')
    as Hall.
  { induction evs as [| e evs IH];
      intros s r n k bound Hevs Hraw Hlast Hr Hn Hnk Hbound; cbn zeta.
    - cbn [fold_left List.length]. split; [congruence |].
      exists n, k. repeat split; try assumption; try lia.
      rewrite Hn, Hraw, Hnk, plus_IZR, mult_IZR. reflexivity.
    - inversion Hevs as [| e' evs' [c [Hc Hce]] Hrest]; subst e' evs'.
      destruct (shortestDelta_whole c r Hc Hr) as (d & j & Hd & Hdj & Hdb).
      cbn [fold_left List.length].
      specialize (IH (handleOrientation s e) c (n + d)%Z (k + j)%Z
                    (bound + 180)%Z Hrest).
      cbn zeta in IH.
      destruct IH as [Hraw' (n' & k' & Hn' & Hb' & Hk')].
      + unfold handleOrientation. cbn [rawHeading]. exact Hce.
      + unfold handleOrientation. cbn [lastHeadingRef]. exact Hce.
      + exact Hc.
      + unfold handleOrientation. cbn [smoothHeading].
        rewrite Hce, Hlast, Hd, Hn, plus_IZR. reflexivity.
      + lia.
      + lia.
      + split; [exact Hraw' |]. exists n', k'.
        repeat split; try assumption. lia. }
  destruct (Hall events resetHeading 0%Z 0%Z 0%Z 0%Z Hwhole)
    as [Hraw (n & k & Hn & Hb & Hk)];
    try reflexivity; try lia.
  split; [exact Hraw |]. exists n, k. unfold dialRotation.
  repeat split; try assumption; try lia.
  rewrite Hk. lra.
Qed.

Lemma smooth_heading_is_raw_heading_up_to_turns_witness :
  rawHeading (session [sample 10; sample 350]) =
    lastHeadingRef (session [sample 10; sample 350]) /\
  exists n k : Z,
    smoothHeading (session [sample 10; sample 350]) = IZR n /\
    (Z.abs n
     <= 180 * Z.of_nat (List.length [sample 10; sample 350]))%Z /\
    smoothHeading (session [sample 10; sample 350]) =
      rawHeading (session [sample 10; sample 350]) + 360 * IZR k /\
    dialRotation (session [sample 10; sample 350]) =
      - rawHeading (session [sample 10; sample 350]) - 360 * IZR k.
Proof.
  apply (smooth_heading_is_raw_heading_up_to_turns [sample 10; sample 350]).
  - repeat constructor.
    + exists 10%Z. split; [lia | apply compassHeading_sample].
    + exists 350%Z. split; [lia | apply compassHeading_sample].
  - cbn. lia.
Defined.

(** X9.  When the previous and the new compass value both lie in
    [0, 360], the correction that one event adds to the accumulated
    heading is at most 180 degrees in absolute value. *)
Theorem one_event_turns_at_most_half_a_turn :
  forall (s : Heading) (e : OrientationEvent),
    0 <= lastHeadingRef s <= 360 ->
    0 <= compassHeading e <= 360 ->
    Rabs (shortestDelta (compassHeading e) (lastHeadingRef s)) <= 180.
Proof.
  intros s e Hprev Hcur.
  rewrite shortestDelta_specDelta. unfold specDelta. cbn zeta.
  apply Rabs_le.
  destruct (Rlt_dec (compassHeading e - lastHeadingRef s) (-180));
    [lra |].
  destruct (Rlt_dec 180 (compassHeading e - lastHeadingRef s)); lra.
Qed.

Lemma one_event_turns_at_most_half_a_turn_witness :
  Rabs (shortestDelta (compassHeading (sample 350))
          (lastHeadingRef resetHeading)) <= 180.
Proof.
  apply (one_event_turns_at_most_half_a_turn resetHeading (sample 350)).
  - cbn. lra.
  - rewrite compassHeading_sample. lra.
Defined.

(** X10.  The [absolute] flag of an event has no effect on the heading
    read from it. *)
Theorem absolute_flag_does_not_change_the_heading :
  forall (w a : option R) (b1 b2 : bool),
    compassHeading
      {| webkitCompassHeading := w; absolute := b1; alpha := a |} =
    compassHeading
      {| webkitCompassHeading := w; absolute := b2; alpha := a |}.
Proof.
  intros w a b1 b2. unfold compassHeading.
  cbn [webkitCompassHeading absolute alpha].
  destruct (truthy w); [reflexivity |].
  destruct a, b1, b2; reflexivity.
Qed.

End HeadingInvariants.

Section Lifecycle.
Import QiblaCompass CompassLifecycle CompassFixtures.

Lemma run_app (pf : Platform) (xs ys : list Action) (c : Component) :
  run pf (xs ++ ys) c = run pf ys (run pf xs c).
Proof. unfold run. apply fold_left_app. Qed.

(** A closed component has no listener, on any platform. *)
Lemma closed_has_no_listener (pf : Platform) (actions : list Action) :
  forall c,
    (isOpen c = false -> listener c = None) ->
    isOpen (run pf actions c) = false -> listener (run pf actions c) = None.
Proof.
  unfold run.
  induction actions as [| a actions IH]; intros c Hc; [exact Hc |].
  cbn [fold_left]. apply IH.
  destruct a as [open | response | type e]; cbn [step].
  - destruct (Bool.eqb open (isOpen c)); [exact Hc |].
    destruct open; [| reflexivity].
    unfold openEffect.
    destruct (requestPermissionIsFunction pf); cbn; discriminate.
  - unfold requestAccess.
    destruct (requestPermissionIsFunction pf); [| exact Hc].
    destruct response; exact Hc.
  - unfold dispatch. destruct (listener c) as [registered |] eqn:Hl;
      [| intros _; exact Hl].
    destruct (EventType_eqb type registered); cbn; intros Hclosed;
      specialize (Hc Hclosed); discriminate Hc.
Qed.

(** X11.  Where [requestPermission] is a function, nothing the user or the
    window does registers the orientation handler: after any sequence of
    openings, closings, permission requests (granted or not) and events,
    no listener is registered and the heading is the reset one. *)
Theorem handler_is_never_registered_where_permission_is_required :
  forall (pf : Platform) (actions : list Action),
    requestPermissionIsFunction pf = true ->
    listener (run pf actions mounted) = None /\
    heading (run pf actions mounted) = resetHeading.
Proof.
  intros pf actions Hpf.
  assert (forall c, listener c = None /\ heading c = resetHeading ->
                    listener (run pf actions c) = None /\
                    heading (run pf actions c) = resetHeading) as Hall.
  { unfold run. induction actions as [| a actions IH]; intros c Hc;
      [exact Hc |].
    cbn [fold_left]. apply IH. destruct Hc as [Hl Hh].
    destruct a as [open | response | type e]; cbn [step].
    - destruct (Bool.eqb open (isOpen c)); [now split |].
      destruct open.
      + unfold openEffect. rewrite Hpf. now split.
      + now split.
    - unfold requestAccess. rewrite Hpf. destruct response; now split.
    - unfold dispatch. rewrite Hl. now split. }
  apply Hall. now split.
Qed.

Lemma handler_is_never_registered_where_permission_is_required_witness :
  listener
    (run {| requestPermissionIsFunction := true; hasAbsoluteEvents := false |}
       [SetOpen true; RequestAccess Granted;
        Dispatch deviceorientation alphaQuarterEvent]
       mounted) = None /\
  heading
    (run {| requestPermissionIsFunction := true; hasAbsoluteEvents := false |}
       [SetOpen true; RequestAccess Granted;
        Dispatch deviceorientation alphaQuarterEvent]
       mounted) = resetHeading.
Proof.
  apply (handler_is_never_registered_where_permission_is_required
           {| requestPermissionIsFunction := true;
              hasAbsoluteEvents := false |}).
  reflexivity.
Defined.

(** X12.  Where no permission is asked, the handler is registered exactly
    while the component is open, for the absolute events when the window
    has them and for the plain ones otherwise; the permission overlay is
    never shown and no error is recorded. *)
Theorem handler_is_registered_while_open :
  forall (pf : Platform) (actions : list Action),
    requestPermissionIsFunction pf = false ->
    let c := run pf actions mounted in
    listener c = (if isOpen c then Some (listenedType pf) else None) /\
    overlayShown c = false /\
    error c = None.
Proof.
  intros pf actions Hpf. cbn zeta.
  assert (forall c,
             (listener c = (if isOpen c then Some (listenedType pf) else None)
              /\ needsPermission c = false /\ error c = None) ->
             listener (run pf actions c) =
               (if isOpen (run pf actions c) then Some (listenedType pf)
                else None) /\
             needsPermission (run pf actions c) = false /\
             error (run pf actions c) = None) as Hall.
  { unfold run. induction actions as [| a actions IH]; intros c Hc;
      [exact Hc |].
    cbn [fold_left]. apply IH. destruct Hc as (Hl & Hn & He).
    destruct a as [open | response | type e]; cbn [step].
    - destruct (Bool.eqb open (isOpen c)); [now repeat split |].
      destruct open.
      + unfold openEffect. rewrite Hpf. now repeat split.
      + now repeat split.
    - unfold requestAccess. rewrite Hpf. now repeat split.
    - unfold dispatch.
      destruct (listener c) as [registered |] eqn:Hreg;
        [| rewrite Hreg; auto].
      destruct (EventType_eqb type registered); cbn; rewrite ?Hreg; auto. }
  destruct (Hall mounted) as (Hl & Hn & He); [now repeat split |].
  unfold overlayShown. rewrite Hn. now repeat split.
Qed.

Lemma handler_is_registered_while_open_witness :
  listener
    (run {| requestPermissionIsFunction := false; hasAbsoluteEvents := true |}
       [SetOpen true] mounted) =
    (if isOpen
          (run {| requestPermissionIsFunction := false;
                  hasAbsoluteEvents := true |} [SetOpen true] mounted)
     then Some
            (listenedType {| requestPermissionIsFunction := false;
                             hasAbsoluteEvents := true |})
     else None) /\
  overlayShown
    (run {| requestPermissionIsFunction := false; hasAbsoluteEvents := true |}
       [SetOpen true] mounted) = false /\
  error
    (run {| requestPermissionIsFunction := false; hasAbsoluteEvents := true |}
       [SetOpen true] mounted) = None.
Proof.
  apply (handler_is_registered_while_open
           {| requestPermissionIsFunction := false;
              hasAbsoluteEvents := true |} [SetOpen true]).
  reflexivity.
Defined.

(** X13.  While the component is closed, events change nothing, on any
    platform and after any history. *)
Theorem closed_compass_ignores_events :
  forall (pf : Platform) (actions : list Action) (type : EventType)
         (e : OrientationEvent),
    isOpen (run pf actions mounted) = false ->
    step pf (run pf actions mounted) (Dispatch type e) =
    run pf actions mounted.
Proof.
  intros pf actions type e Hclosed. cbn [step]. unfold dispatch.
  now rewrite (closed_has_no_listener pf actions mounted (fun _ => eq_refl)
                 Hclosed).
Qed.

Lemma closed_compass_ignores_events_witness :
  step {| requestPermissionIsFunction := false; hasAbsoluteEvents := false |}
    (run {| requestPermissionIsFunction := false; hasAbsoluteEvents := false |}
       [SetOpen true; Dispatch deviceorientation alphaQuarterEvent;
        SetOpen false] mounted)
    (Dispatch deviceorientation alphaZeroEvent) =
  run {| requestPermissionIsFunction := false; hasAbsoluteEvents := false |}
    [SetOpen true; Dispatch deviceorientation alphaQuarterEvent;
     SetOpen false] mounted.
Proof.
  apply (closed_compass_ignores_events
           {| requestPermissionIsFunction := false;
              hasAbsoluteEvents := false |}
           [SetOpen true; Dispatch deviceorientation alphaQuarterEvent;
            SetOpen false]).
  reflexivity.
Defined.

Lemma run_dispatches (pf : Platform) (events : list OrientationEvent) :
  forall c,
    listener c = Some (listenedType pf) ->
    let c' := run pf (map (Dispatch (listenedType pf)) events) c in
    heading c' = fold_left handleOrientation events (heading c) /\
    listener c' = Some (listenedType pf).
Proof.
  unfold run.
  induction events as [| e events IH]; intros c Hl; cbn zeta;
    [now split |].
  cbn [map fold_left step].
  assert (dispatch c (listenedType pf) e =
          {| isOpen := isOpen c; heading := handleOrientation (heading c) e;
             permissionGranted := permissionGranted c;
             needsPermission := needsPermission c;
             error := error c; listener := listener c |}) as ->.
  { unfold dispatch. rewrite Hl. now destruct (listenedType pf). }
  apply IH. cbn. exact Hl.
Qed.

(** X14.  Opening starts afresh: whatever happened before, once the closed
    component is opened on a platform that asks no permission, the heading
    after a run of events is the heading of a session of those events
    alone. *)
Theorem opening_forgets_earlier_sessions :
  forall (pf : Platform) (before : list Action)
         (events : list OrientationEvent),
    requestPermissionIsFunction pf = false ->
    isOpen (run pf before mounted) = false ->
    heading
      (run pf (before ++ SetOpen true
                 :: map (Dispatch (listenedType pf)) events) mounted) =
    session events.
Proof.
  intros pf before events Hpf Hclosed.
  rewrite run_app.
  change (run pf (SetOpen true :: map (Dispatch (listenedType pf)) events)
            (run pf before mounted))
    with (run pf (map (Dispatch (listenedType pf)) events)
            (step pf (run pf before mounted) (SetOpen true))).
  cbn [step]. rewrite Hclosed. cbn [Bool.eqb].
  unfold openEffect. rewrite Hpf.
  match goal with
  | |- heading (run pf _ ?c) = _ =>
      destruct (run_dispatches pf events c eq_refl) as [-> _]
  end.
  reflexivity.
Qed.

Lemma opening_forgets_earlier_sessions_witness :
  heading
    (run {| requestPermissionIsFunction := false; hasAbsoluteEvents := false |}
       ([SetOpen true; Dispatch deviceorientation alphaQuarterEvent;
         SetOpen false]
        ++ SetOpen true
           :: map (Dispatch
                     (listenedType
                        {| requestPermissionIsFunction := false;
                           hasAbsoluteEvents := false |}))
                [alphaZeroEvent]) mounted) =
  session [alphaZeroEvent].
Proof.
  apply (opening_forgets_earlier_sessions
           {| requestPermissionIsFunction := false;
              hasAbsoluteEvents := false |}
           [SetOpen true; Dispatch deviceorientation alphaQuarterEvent;
            SetOpen false] [alphaZeroEvent]);
    reflexivity.
Defined.

(** X15.  Once a permission request has been granted, the permission
    overlay is not shown again, whatever follows. *)
Theorem overlay_stays_hidden_after_grant :
  forall (pf : Platform) (before after : list Action),
    requestPermissionIsFunction pf = true ->
    let c := run pf (before ++ RequestAccess Granted :: after) mounted in
    permissionGranted c = true /\ overlayShown c = false.
Proof.
  intros pf before after Hpf. cbn zeta.
  assert (forall acts c, permissionGranted c = true ->
                         permissionGranted (run pf acts c) = true) as Hkeep.
  { unfold run. induction acts as [| a acts IH]; intros c Hc; [exact Hc |].
    cbn [fold_left]. apply IH.
    destruct a as [open | response | type e]; cbn [step].
    - destruct (Bool.eqb open (isOpen c)); [exact Hc |].
      destruct open; [| exact Hc].
      unfold openEffect. now destruct (requestPermissionIsFunction pf).
    - unfold requestAccess. destruct (requestPermissionIsFunction pf);
        [| exact Hc].
      now destruct response.
    - unfold dispatch. destruct (listener c) as [registered |]; [| exact Hc].
      now destruct (EventType_eqb type registered). }
  rewrite run_app.
  change (run pf (RequestAccess Granted :: after) (run pf before mounted))
    with (run pf after (step pf (run pf before mounted)
                          (RequestAccess Granted))).
  assert (permissionGranted
            (run pf after (step pf (run pf before mounted)
                             (RequestAccess Granted))) = true) as Hg.
  { apply Hkeep. cbn [step]. unfold requestAccess. now rewrite Hpf. }
  split; [exact Hg |]. unfold overlayShown. rewrite Hg. apply andb_false_r.
Qed.

Lemma overlay_stays_hidden_after_grant_witness :
  permissionGranted
    (run {| requestPermissionIsFunction := true; hasAbsoluteEvents := false |}
       ([SetOpen true] ++ RequestAccess Granted
          :: [SetOpen false; SetOpen true]) mounted) = true /\
  overlayShown
    (run {| requestPermissionIsFunction := true; hasAbsoluteEvents := false |}
       ([SetOpen true] ++ RequestAccess Granted
          :: [SetOpen false; SetOpen true]) mounted) = false.
Proof.
  apply (overlay_stays_hidden_after_grant
           {| requestPermissionIsFunction := true;
              hasAbsoluteEvents := false |}
           [SetOpen true] [SetOpen false; SetOpen true]).
  reflexivity.
Defined.

End Lifecycle.

Section QiblaFurther.
Import QiblaCompass CompassFixtures QiblaDistance.
Local Open Scope R_scope.

(** ** Bounds on PI *)

Lemma PI_between : 31415 / 10000 < PI < 31416 / 10000.
Proof.
  pose proof (PI_2_3_7_ineq 2) as [Hlow Hup].
  unfold sum_f_R0, tg_alt, PI_2_3_7_tg, Ratan_seq in Hlow, Hup.
  simpl in Hlow, Hup. split; lra.
Qed.

(** ** More on the [Math] functions *)

Lemma Math_atan2_quadrant (y x : R) :
  0 <= y -> 0 <= x -> Math_atan2 y x <= PI / 2.
Proof.
  intros Hy Hx. pose proof PI_RGT_0 as Hpi. unfold Math_atan2.
  destruct (Rlt_dec 0 x).
  - pose proof (atan_bound (y / x)). lra.
  - destruct (Rlt_dec x 0); [lra |].
    destruct (Rlt_dec 0 y); [lra |].
    destruct (Rlt_dec y 0); lra.
Qed.

Lemma Math_atan2_0_pos (x : R) : 0 < x -> Math_atan2 0 x = 0.
Proof.
  intros Hx. unfold Math_atan2. destruct (Rlt_dec 0 x); [| lra].
  replace (0 / x) with 0 by (field; lra). apply atan_0.
Qed.

Lemma Math_atan2_0_neg (x : R) : x < 0 -> Math_atan2 0 x = PI.
Proof.
  intros Hx. unfold Math_atan2.
  destruct (Rlt_dec 0 x); [lra |]. destruct (Rlt_dec x 0); [| lra].
  destruct (Rle_dec 0 0); [| lra].
  replace (0 / x) with 0 by (field; lra). rewrite atan_0. lra.
Qed.

Lemma remainder_second_turn (x y : R) :
  y <= x < 2 * y -> 0 < y -> remainder x y = x - y.
Proof.
  intros [Hx Hxy] Hy. unfold remainder, truncate.
  assert (1 <= x / y < 2) as [Hq0 Hq1].
  { split.
    - apply Rmult_le_reg_r with y; [lra |].
      replace (x / y * y) with x by (field; lra). lra.
    - apply Rmult_lt_reg_r with y; [lra |].
      replace (x / y * y) with x by (field; lra). lra. }
  destruct (Rlt_dec (x / y) 0); [lra |].
  rewrite <- (Int_part_spec (x / y) 1) by lra. lra.
Qed.

Lemma toDeg_PI : toDeg PI = 180.
Proof. unfold toDeg. field. apply PI_neq0. Qed.

(** ** On the meridian of the Kaaba *)

Lemma bearing_components_on_meridian (lat : R) :
  let phi1 := toRad lat in
  let phi2 := toRad KAABA_LAT in
  let deltaLambda := toRad (KAABA_LNG - KAABA_LNG) in
  sin deltaLambda * cos phi2 = 0 /\
  cos phi1 * sin phi2 - sin phi1 * cos phi2 * cos deltaLambda =
    sin (toRad (KAABA_LAT - lat)).
Proof.
  cbn zeta. replace (KAABA_LNG - KAABA_LNG) with 0 by ring.
  rewrite toRad_0, sin_0, cos_0. split; [ring |].
  replace (toRad (KAABA_LAT - lat)) with (toRad KAABA_LAT - toRad lat)
    by (unfold toRad; field).
  rewrite sin_minus. ring.
Qed.

(** X16.  For an observer on the meridian of the Kaaba, at least a
    millionth of a degree of latitude away from it, the bearing is due
    north, 0, when the observer is south of the Kaaba and due south, 180,
    when the observer is north of it. *)
Theorem qibla_on_the_kaaba_meridian :
  forall lat : R,
    -90 <= lat <= 90 ->
    (lat <= KAABA_LAT - / 1000000 ->
     qiblaBearing (calculateQibla lat KAABA_LNG) = 0) /\
    (KAABA_LAT + / 1000000 <= lat ->
     qiblaBearing (calculateQibla lat KAABA_LNG) = 180).
Proof.
  intros lat Hlat. pose proof PI_between as Hpi.
  destruct (bearing_components_on_meridian lat) as [Hy Hx]. cbn zeta in Hy, Hx.
  unfold calculateQibla, computeQibla. cbn zeta. cbn [qiblaBearing].
  rewrite Hy, Hx.
  assert (toRad (KAABA_LAT - lat) = (KAABA_LAT - lat) * (PI / 180)) as Hrad
    by (unfold toRad; field).
  unfold KAABA_LAT in *.
  split; intros Hside.
  - assert (0 < sin (toRad (21422487 / 1000000 - lat))) as Hsin.
    { apply sin_gt_0; rewrite Hrad; nra. }
    rewrite Math_atan2_0_pos by exact Hsin.
    rewrite toDeg_0. replace (0 + 360) with 360 by ring.
    apply remainder_self. lra.
  - assert (sin (toRad (21422487 / 1000000 - lat)) < 0) as Hsin.
    { apply sin_lt_0_var; rewrite Hrad; nra. }
    rewrite Math_atan2_0_neg by exact Hsin.
    rewrite toDeg_PI. rewrite remainder_second_turn by lra. lra.
Qed.

Lemma qibla_on_the_kaaba_meridian_witness :
  qiblaBearing (calculateQibla 0 KAABA_LNG) = 0.
Proof.
  apply (proj1 (qibla_on_the_kaaba_meridian 0 ltac:(lra))).
  unfold KAABA_LAT. lra.
Defined.

(** ** Away from the antipode *)

Lemma sin_of_36_ten_thousandths : 35 / 10000 <= sin (36 / 10000).
Proof.
  pose proof PI_between as Hpi.
  destruct (sin_bound (36 / 10000) 0) as [H _]; [lra | lra |].
  unfold sin_approx, sum_f_R0, sin_term in H. simpl in H. lra.
Qed.

(** The haversine term is at most one minus the squared sine of half the
    sum of the latitudes. *)
Lemma haversine_term_margin (phi1 phi2 dLon : R) :
  0 <= cos phi1 -> 0 <= cos phi2 ->
  sin ((phi2 - phi1) / 2) * sin ((phi2 - phi1) / 2) +
  cos phi1 * cos phi2 * sin (dLon / 2) * sin (dLon / 2)
  <= 1 - sin ((phi1 + phi2) / 2) * sin ((phi1 + phi2) / 2).
Proof.
  intros Hc1 Hc2.
  pose proof (cos_2a_sin ((phi2 - phi1) / 2)) as Hhalf.
  replace (2 * ((phi2 - phi1) / 2)) with (phi2 - phi1) in Hhalf by field.
  rewrite cos_minus in Hhalf.
  pose proof (cos_2a_sin ((phi1 + phi2) / 2)) as Hsum.
  replace (2 * ((phi1 + phi2) / 2)) with (phi1 + phi2) in Hsum by field.
  rewrite cos_plus in Hsum.
  pose proof (SIN_bound (dLon / 2)) as Hs.
  set (s := sin ((phi2 - phi1) / 2)) in *.
  set (w := sin ((phi1 + phi2) / 2)) in *.
  set (t := sin (dLon / 2)) in *.
  set (c1 := cos phi1) in *. set (c2 := cos phi2) in *.
  set (s1 := sin phi1) in *. set (s2 := sin phi2) in *.
  clearbody s w t c1 c2 s1 s2.
  assert (0 <= t * t <= 1) as Ht by nra.
  assert (0 <= c1 * c2) as Hcc by (apply Rmult_le_pos; assumption).
  assert (c1 * c2 * t * t = (c1 * c2) * (t * t)) as -> by ring.
  assert ((c1 * c2) * (t * t) <= c1 * c2) as Hprod.
  { rewrite <- (Rmult_1_r (c1 * c2)) at 2.
    apply Rmult_le_compat_l; lra. }
  lra.
Qed.

(** X17.  For an observer at a latitude from -21 to 90 degrees, which
    keeps it away from the antipode of the Kaaba, and a longitude in
    [-180, 180]: the haversine term lies between 0 and 1 - 10^-5, well
    inside the range where both square roots are defined; the bearing
    lies in [0, 360); and the distance stored is a whole number of
    kilometres between 0 and 20015, half the circumference of a sphere of
    radius 6371. *)
Theorem qibla_ranges_away_from_the_antipode :
  forall lat lng : R,
    -21 <= lat <= 90 -> -180 <= lng <= 180 ->
    0 <= haversineTerm lat lng KAABA_LAT KAABA_LNG <= 1 - / 100000 /\
    0 <= qiblaBearing (calculateQibla lat lng) < 360 /\
    (exists z : Z,
        distance (calculateQibla lat lng) = Some (IZR z) /\
        (0 <= z <= 20015)%Z).
Proof.
  intros lat lng Hlat _. pose proof PI_between as Hpi.
  assert (-90 <= lat <= 90) as Hlat' by lra.
  assert (-90 <= KAABA_LAT <= 90) as Hk by (unfold KAABA_LAT; lra).
  pose proof (cos_latitude_nonneg lat Hlat') as Hc1.
  pose proof (cos_latitude_nonneg KAABA_LAT Hk) as Hc2.
  pose proof (haversine_term_range (toRad lat) (toRad KAABA_LAT)
                (toRad KAABA_LNG - toRad lng) Hc1 Hc2) as Ha.
  pose proof (haversine_term_margin (toRad lat) (toRad KAABA_LAT)
                (toRad KAABA_LNG - toRad lng) Hc1 Hc2) as Hmargin.
  cbn zeta in Ha.
  assert (35 / 10000 <= sin ((toRad lat + toRad KAABA_LAT) / 2)) as Hsin.
  { apply Rle_trans with (sin (36 / 10000));
      [apply sin_of_36_ten_thousandths |].
    assert ((toRad lat + toRad KAABA_LAT) / 2
            = (lat + KAABA_LAT) * (PI / 360)) as ->
      by (unfold toRad; field).
    unfold KAABA_LAT.
    apply sin_incr_1; nra. }
  assert (/ 100000
          <= sin ((toRad lat + toRad KAABA_LAT) / 2)
             * sin ((toRad lat + toRad KAABA_LAT) / 2)) as Hsq by nra.
  split; [| split].
  - unfold haversineTerm. cbn zeta. lra.
  - unfold calculateQibla, computeQibla. cbn zeta. cbn [qiblaBearing].
    apply remainder_range; [| lra].
    match goal with
    | |- context [toDeg (Math_atan2 ?y ?x)] =>
        pose proof (toDeg_range _ (Math_atan2_range y x))
    end.
    lra.
  - unfold calculateQibla, computeQibla. cbn zeta. cbn [distance].
    set (a := sin ((toRad KAABA_LAT - toRad lat) / 2) *
              sin ((toRad KAABA_LAT - toRad lat) / 2) +
              cos (toRad lat) * cos (toRad KAABA_LAT) *
              sin ((toRad KAABA_LNG - toRad lng) / 2) *
              sin ((toRad KAABA_LNG - toRad lng) / 2)) in *.
    rewrite (Math_sqrt_defined a) by lra.
    rewrite (Math_sqrt_defined (1 - a)) by lra.
    pose proof (Math_atan2_nonneg (sqrt a) (sqrt (1 - a))
                  (sqrt_pos a) (sqrt_pos (1 - a))) as Hlo.
    pose proof (Math_atan2_quadrant (sqrt a) (sqrt (1 - a))
                  (sqrt_pos a) (sqrt_pos (1 - a))) as Hhi.
    set (c := Math_atan2 (sqrt a) (sqrt (1 - a))) in *.
    unfold Math_round. eexists. split; [reflexivity |].
    split.
    + apply Int_part_nonneg. lra.
    + destruct (base_Int_part (6371 * (2 * c) + / 2)) as [Hup _].
      assert (IZR (Int_part (6371 * (2 * c) + / 2)) < IZR 20016) as Hlt
        by lra.
      apply lt_IZR in Hlt. lia.
Qed.

(** Jakarta, the default location. *)
Lemma qibla_ranges_away_from_the_antipode_witness :
  0 <= haversineTerm DEFAULT_LOCATION_lat DEFAULT_LOCATION_lng
         KAABA_LAT KAABA_LNG <= 1 - / 100000 /\
  0 <= qiblaBearing
         (calculateQibla DEFAULT_LOCATION_lat DEFAULT_LOCATION_lng) < 360 /\
  (exists z : Z,
      distance (calculateQibla DEFAULT_LOCATION_lat DEFAULT_LOCATION_lng)
        = Some (IZR z) /\
      (0 <= z <= 20015)%Z).
Proof.
  apply (qibla_ranges_away_from_the_antipode
           DEFAULT_LOCATION_lat DEFAULT_LOCATION_lng);
    unfold DEFAULT_LOCATION_lat, DEFAULT_LOCATION_lng; lra.
Defined.

End QiblaFurther.

(** * Properties of the service *)

Section Request.
Import App GeminiService GeminiRequest.
Local Open Scope Z_scope.

(** The loop, attempt by attempt. *)
Lemma retry_cases (outcome : Z -> Attempt) :
  retry outcome =
  match outcome 0 with
  | Parsed r => {| parsed := Some r; requests := 1; delays := [] |}
  | QuotaExceeded => {| parsed := None; requests := 1; delays := [] |}
  | Failed =>
      match outcome 1 with
      | Parsed r => {| parsed := Some r; requests := 2; delays := [1000] |}
      | QuotaExceeded =>
          {| parsed := None; requests := 2; delays := [1000] |}
      | Failed =>
          match outcome 2 with
          | Parsed r =>
              {| parsed := Some r; requests := 3; delays := [1000; 2000] |}
          | _ => {| parsed := None; requests := 3; delays := [1000; 2000] |}
          end
      end
  end.
Proof.
  unfold retry. cbv.
  destruct (outcome 0); try reflexivity;
    destruct (outcome 1); try reflexivity;
    destruct (outcome 2); reflexivity.
Qed.

(** Three turns are all the loop takes: more fuel changes nothing. *)
Lemma retryFrom_fuel (outcome : Z -> Attempt) (extra : nat) :
  retryFrom outcome (3 + extra) 0
    {| parsed := None; requests := 0; delays := [] |} = retry outcome.
Proof.
  rewrite retry_cases. cbn [Nat.add]. cbv -[retryFrom].
  cbn [retryFrom]. cbv -[retryFrom].
  destruct (outcome 0); try reflexivity;
    destruct (outcome 1); try reflexivity;
    destruct (outcome 2); try reflexivity;
    destruct extra; reflexivity.
Qed.

(** X19.  Whatever the attempts give, between one and three requests are
    sent, and the delays awaited are the first backoffs, 1000 ms and then
    2000 ms, one between each request and the next: there is none after
    the last request, and 3000 ms of waiting at most. *)
Theorem retry_sends_at_most_three_requests :
  forall outcome : Z -> Attempt,
    let l := retry outcome in
    1 <= requests l <= 3 /\
    delays l =
      map (fun i => backoff (Z.of_nat i))
        (seq 0 (Z.to_nat (requests l - 1))) /\
    fold_right Z.add 0 (delays l) <= 3000.
Proof.
  intros outcome. cbn zeta. rewrite retry_cases.
  destruct (outcome 0); [vm_compute; intuition discriminate .. |].
  destruct (outcome 1); [vm_compute; intuition discriminate .. |].
  destruct (outcome 2); vm_compute; intuition discriminate.
Qed.

(** X20.  The reply used is that of the first attempt that does not fail,
    when that attempt parses: [parsed] holds a reply exactly when some
    attempt among the three gives it and every attempt before it failed
    in the ordinary way. *)
Theorem retry_keeps_the_first_reply :
  forall (outcome : Z -> Attempt) (reply : Reply),
    parsed (retry outcome) = Some reply <->
    exists k, 0 <= k < 3 /\ outcome k = Parsed reply /\
              forall j, 0 <= j < k -> outcome j = Failed.
Proof.
  intros outcome reply. rewrite retry_cases.
  split.
  - destruct (outcome 0) as [r0 | |] eqn:H0; cbn [parsed].
    + intros [= ->]. exists 0. repeat split; try lia. exact H0.
    + discriminate.
    + destruct (outcome 1) as [r1 | |] eqn:H1; cbn [parsed].
      * intros [= ->]. exists 1. repeat split; try lia; [exact H1 |].
        intros j Hj. now replace j with 0 by lia.
      * discriminate.
      * destruct (outcome 2) as [r2 | |] eqn:H2; cbn [parsed];
          try discriminate.
        intros [= ->]. exists 2. repeat split; try lia; [exact H2 |].
        intros j Hj.
        assert (j = 0 \/ j = 1) as [-> | ->] by lia; assumption.
  - intros (k & Hk & Hreply & Hbefore).
    assert (k = 0 \/ k = 1 \/ k = 2) as [-> | [-> | ->]] by lia.
    + now rewrite Hreply.
    + rewrite (Hbefore 0) by lia. now rewrite Hreply.
    + rewrite (Hbefore 0), (Hbefore 1) by lia. now rewrite Hreply.
Qed.

(** X21.  An error taken for an exhausted quota ends the loop at once:
    when attempt [k] meets it after [k] ordinary failures, [k + 1]
    requests have been sent, no delay follows, and the data returned carry
    the fallback city and quote. *)
Theorem quota_error_stops_the_retries :
  forall (outcome : Z -> Attempt) (k : Z)
         (gregorianLatin timeZone : string) (hijriData : HijriDateInfo)
         (times : FormattedTimes),
    0 <= k < 3 ->
    outcome k = QuotaExceeded ->
    (forall j, 0 <= j < k -> outcome j = Failed) ->
    let l := retry outcome in
    parsed l = None /\
    requests l = k + 1 /\
    List.length (delays l) = Z.to_nat k /\
    city (dailyData gregorianLatin hijriData times timeZone l)
      = fallbackCity /\
    quote (dailyData gregorianLatin hijriData times timeZone l)
      = Some fallbackQuote.
Proof.
  intros outcome k g tz h times Hk Hquota Hbefore. cbn zeta.
  unfold dailyData. cbn [city quote].
  rewrite retry_cases.
  assert (k = 0 \/ k = 1 \/ k = 2) as [-> | [-> | ->]] by lia.
  - rewrite Hquota. repeat split.
  - rewrite (Hbefore 0) by lia. rewrite Hquota. repeat split.
  - rewrite (Hbefore 0), (Hbefore 1) by lia. rewrite Hquota. repeat split.
Qed.

Lemma quota_error_stops_the_retries_witness :
  parsed (retry (fun i => if i =? 1 then QuotaExceeded else Failed)) = None /\
  requests (retry (fun i => if i =? 1 then QuotaExceeded else Failed))
    = 1 + 1 /\
  List.length
    (delays (retry (fun i => if i =? 1 then QuotaExceeded else Failed)))
    = Z.to_nat 1 /\
  city (dailyData "Jumat, 2 Januari 2026" (hijri Fixtures.FALLBACK_DATA)
          (mkFormattedTimes "04:15" "05:35" "05:55" "11:55" "15:20" "18:05"
             "19:20" "23:10" "00:50")
          "Asia/Jakarta"
          (retry (fun i => if i =? 1 then QuotaExceeded else Failed)))
    = fallbackCity /\
  quote (dailyData "Jumat, 2 Januari 2026" (hijri Fixtures.FALLBACK_DATA)
           (mkFormattedTimes "04:15" "05:35" "05:55" "11:55" "15:20" "18:05"
              "19:20" "23:10" "00:50")
           "Asia/Jakarta"
           (retry (fun i => if i =? 1 then QuotaExceeded else Failed)))
    = Some fallbackQuote.
Proof.
  apply (quota_error_stops_the_retries
           (fun i => if i =? 1 then QuotaExceeded else Failed) 1).
  - lia.
  - reflexivity.
  - intros j Hj. now replace j with 0 by lia.
Defined.

End Request.

Section Night.
Import QiblaCompass NightTimes.
Local Open Scope R_scope.

(** The integer part lies on the side of zero. *)
Lemma truncate_bounds (x : R) :
  (0 <= x -> IZR (truncate x) <= x < IZR (truncate x) + 1) /\
  (x < 0 -> x <= IZR (truncate x) < x + 1).
Proof.
  unfold truncate. destruct (Rlt_dec x 0) as [Hneg | Hpos].
  - split; [lra |]. intros _.
    destruct (base_Int_part (- x)) as [Hup Hlow].
    rewrite opp_IZR. lra.
  - split; [| lra]. intros _.
    destruct (base_Int_part x) as [Hup Hlow]. lra.
Qed.

(** A value between two integers keeps its integer part between them. *)
Lemma truncate_between (a b : Z) (x : R) :
  IZR a <= x <= IZR b -> (a <= truncate x <= b)%Z.
Proof.
  intros [Ha Hb]. destruct (truncate_bounds x) as [Hpos Hneg].
  destruct (Rlt_dec x 0) as [Hx | Hx].
  - destruct (Hneg Hx) as [Hlo Hhi]. split.
    + apply le_IZR. lra.
    + assert (IZR (truncate x) < IZR (b + 1)) as H
        by (rewrite plus_IZR; lra).
      apply lt_IZR in H. lia.
  - destruct (Hpos ltac:(lra)) as [Hlo Hhi]. split.
    + assert (IZR a < IZR (truncate x + 1)) as H
        by (rewrite plus_IZR; lra).
      apply lt_IZR in H. lia.
    + apply le_IZR. lra.
Qed.

Lemma truncate_monotone (x y : R) :
  x <= y -> (truncate x <= truncate y)%Z.
Proof.
  intros Hxy.
  destruct (truncate_bounds x) as [Hxpos Hxneg].
  destruct (truncate_bounds y) as [Hypos Hyneg].
  assert (IZR (truncate x) < IZR (truncate y + 1)) as H.
  { rewrite plus_IZR.
    destruct (Rlt_dec x 0) as [Hx | Hx], (Rlt_dec y 0) as [Hy | Hy].
    - destruct (Hxneg Hx), (Hyneg Hy).
      (* both integer parts round up *)
      destruct (Rlt_dec (IZR (truncate x)) (IZR (truncate y) + 1));
        [assumption |].
      exfalso.
      assert (IZR (truncate y + 1) <= IZR (truncate x)) as Hge
        by (rewrite plus_IZR; lra).
      apply le_IZR in Hge.
      assert (IZR (truncate y) + 1 <= IZR (truncate x)) as Hge'
        by (rewrite <- plus_IZR; apply IZR_le; lia).
      lra.
    - destruct (Hxneg Hx), (Hypos ltac:(lra)).
      assert (IZR (truncate x) < 1) as Hx1 by lra.
      assert (-1 < IZR (truncate y)) as Hy1 by lra.
      apply (lt_IZR _ 1) in Hx1. apply (lt_IZR (-1)) in Hy1.
      assert (truncate x <= truncate y)%Z as Hle by lia.
      apply IZR_le in Hle. lra.
    - lra.
    - destruct (Hxpos ltac:(lra)), (Hypos ltac:(lra)). lra. }
  apply lt_IZR in H. lia.
Qed.

(** X22.  When tomorrow's Fajr is not before today's Maghrib, both time
    values of magnitude at most 2^51, the computed Midnight and Last Third
    are valid times that lie within the night, in this order, and Midnight
    is less than a millisecond from the exact middle of the night. *)
Theorem night_times_lie_within_the_night :
  forall maghribTime fajrTomorrowTime : Z,
    smallTime maghribTime -> smallTime fajrTomorrowTime ->
    (maghribTime <= fajrTomorrowTime)%Z ->
    exists midnight lastThird : Z,
      midnightDate (nightTimes maghribTime fajrTomorrowTime) = Some midnight /\
      lastThirdDate (nightTimes maghribTime fajrTomorrowTime)
        = Some lastThird /\
      (maghribTime <= midnight <= lastThird)%Z /\
      (lastThird <= fajrTomorrowTime)%Z /\
      Rabs (IZR midnight - (IZR maghribTime + IZR fajrTomorrowTime) / 2) < 1.
Proof.
  intros m f [Hm1 Hm2] [Hf1 Hf2] Hmf.
  apply IZR_le in Hm1, Hm2, Hf1, Hf2, Hmf.
  unfold nightTimes. cbn zeta. cbn [midnightDate lastThirdDate].
  set (x := IZR m + (IZR f - IZR m) / 2).
  set (y := IZR m + (IZR f - IZR m) * (2 / 3)).
  assert (IZR m <= x <= IZR f) as Hx by (unfold x; lra).
  assert (IZR m <= y <= IZR f) as Hy by (unfold y; lra).
  assert (x <= y) as Hxy by (unfold x, y; lra).
  unfold newDate.
  destruct (Rlt_dec 8640000000000000 (Rabs x)) as [Hbad |];
    [exfalso; revert Hbad; unfold Rabs; destruct (Rcase_abs x); lra |].
  destruct (Rlt_dec 8640000000000000 (Rabs y)) as [Hbad |];
    [exfalso; revert Hbad; unfold Rabs; destruct (Rcase_abs y); lra |].
  exists (truncate x), (truncate y).
  pose proof (truncate_between m f x Hx) as Hbx.
  pose proof (truncate_between m f y Hy) as Hby.
  pose proof (truncate_monotone x y Hxy) as Hmono.
  repeat split; try reflexivity; try lia.
  replace ((IZR m + IZR f) / 2) with x by (unfold x; field).
  destruct (truncate_bounds x) as [Hpos Hneg]. apply Rabs_def1;
    destruct (Rlt_dec x 0) as [Hs | Hs];
    try (destruct (Hneg Hs)); try (destruct (Hpos ltac:(lra))); lra.
Qed.

(** Maghrib at 18:05 and the next Fajr at 04:15 and 1 ms, Jakarta time,
    on 2 January 2026. *)
Lemma night_times_lie_within_the_night_witness :
  exists midnight lastThird : Z,
    midnightDate (nightTimes 1767351900000 1767388500001) = Some midnight /\
    lastThirdDate (nightTimes 1767351900000 1767388500001) = Some lastThird /\
    (1767351900000 <= midnight <= lastThird)%Z /\
    (lastThird <= 1767388500001)%Z /\
    Rabs (IZR midnight - (IZR 1767351900000 + IZR 1767388500001) / 2) < 1.
Proof.
  apply (night_times_lie_within_the_night 1767351900000 1767388500001);
    unfold smallTime; lia.
Defined.

End Night.

Section Digits.
Import HijriDigits.

Lemma isLead_217 : isLead (ascii_of_nat 217) = true.
Proof. reflexivity. Qed.

Lemma arabic_digit_tail (d : nat) :
  (d <= 9)%nat ->
  isDigitTail (ascii_of_nat (160 + d)) = true /\
  englishDigit (ascii_of_nat (160 + d)) = ascii_of_nat (48 + d).
Proof.
  intros Hd. unfold isDigitTail, englishDigit.
  rewrite nat_ascii_embedding by lia. split.
  - apply andb_true_iff. split; apply Nat.leb_le; lia.
  - f_equal. lia.
Qed.

(** X23.  A numeral written with Arabic-Indic digits is turned, digit by
    digit, into the same numeral written with ASCII digits. *)
Theorem convertArabicToEnglish_on_numerals :
  forall digits : list nat,
    Forall (fun d => (d <= 9)%nat) digits ->
    convertArabicToEnglish (arabicNumeral digits) = englishNumeral digits.
Proof.
  induction 1 as [| d digits Hd _ IH]; [reflexivity |].
  destruct (arabic_digit_tail d Hd) as [Htail Hdigit].
  cbn [arabicNumeral englishNumeral convertArabicToEnglish].
  now rewrite isLead_217, Htail, Hdigit, IH.
Qed.

(** The day and the year of [FALLBACK_DATA]: 13 and 1447. *)
Lemma convertArabicToEnglish_on_numerals_witness :
  convertArabicToEnglish (arabicNumeral [1; 4; 4; 7]%nat) =
  englishNumeral [1; 4; 4; 7]%nat.
Proof.
  apply (convertArabicToEnglish_on_numerals [1; 4; 4; 7]%nat).
  repeat constructor.
Defined.

Lemma englishDigit_not_special (c : ascii) :
  isDigitTail c = true ->
  isLead (englishDigit c) = false /\ isDigitTail (englishDigit c) = false.
Proof.
  unfold isDigitTail, isLead, englishDigit. cbn zeta. intros H.
  apply andb_true_iff in H as [Hlo Hhi].
  apply Nat.leb_le in Hlo, Hhi.
  rewrite nat_ascii_embedding by lia. split.
  - apply Nat.eqb_neq. lia.
  - apply andb_false_iff. left. apply Nat.leb_gt. lia.
Qed.

Lemma lead_is_not_tail (c : ascii) : isLead c = true -> isDigitTail c = false.
Proof.
  unfold isLead, isDigitTail. cbn zeta. intros H. apply Nat.eqb_eq in H.
  rewrite H. reflexivity.
Qed.

Lemma convert_two (c1 c2 : ascii) (s2 : string) :
  convertArabicToEnglish (String c1 (String c2 s2)) =
  if isLead c1 && isDigitTail c2
  then String (englishDigit c2) (convertArabicToEnglish s2)
  else String c1 (convertArabicToEnglish (String c2 s2)).
Proof. reflexivity. Qed.

Lemma hasArabicDigit_cons (c1 : ascii) (r : string) :
  hasArabicDigit (String c1 r) =
  match r with
  | EmptyString => false
  | String c2 _ => (isLead c1 && isDigitTail c2) || hasArabicDigit r
  end.
Proof. destruct r; reflexivity. Qed.

(** What the result starts with, and that it holds no Arabic-Indic digit;
    by induction on a bound of the length. *)
Lemma convert_leaves_no_digit (n : nat) :
  forall s : string,
    (String.length s <= n)%nat ->
    hasArabicDigit (convertArabicToEnglish s) = false /\
    (forall c t, convertArabicToEnglish s = String c t ->
                 isDigitTail c = true -> exists t0, s = String c t0).
Proof.
  induction n as [| n IH]; intros s Hlen.
  - destruct s; [| cbn in Hlen; lia]. split; [reflexivity | discriminate].
  - destruct s as [| c1 s1]; [split; [reflexivity | discriminate] |].
    destruct s1 as [| c2 s2];
      [split; [reflexivity | intros c t [= <- <-] _; eauto] |].
    cbn [String.length] in Hlen.
    rewrite convert_two.
    destruct (isLead c1 && isDigitTail c2) eqn:Hpair.
    + apply andb_true_iff in Hpair as [Hlead Htail].
      destruct (englishDigit_not_special c2 Htail) as [Hnl Hnt].
      destruct (IH s2 ltac:(lia)) as [Hrest _].
      split.
      * rewrite hasArabicDigit_cons.
        destruct (convertArabicToEnglish s2) as [| c3 t3]; [reflexivity |].
        now rewrite Hnl.
      * intros c t [= <- <-] Hc. congruence.
    + destruct (IH (String c2 s2) ltac:(cbn [String.length]; lia))
        as [Hrest Hhead].
      remember (convertArabicToEnglish (String c2 s2)) as r eqn:Hr.
      split.
      * rewrite hasArabicDigit_cons.
        destruct r as [| c3 t3]; [reflexivity |].
        rewrite Hrest, orb_false_r.
        destruct (isLead c1) eqn:Hl1; [| reflexivity]. cbn [andb] in *.
        destruct (isDigitTail c3) eqn:Ht3; [| reflexivity].
        destruct (Hhead c3 t3 eq_refl Ht3) as [t0 [= <- _]].
        congruence.
      * intros c t [= <- <-] _. eauto.
Qed.

Lemma convert_without_digit (n : nat) :
  forall s : string,
    (String.length s <= n)%nat ->
    hasArabicDigit s = false -> convertArabicToEnglish s = s.
Proof.
  induction n as [| n IH]; intros s Hlen Hs.
  - destruct s; [reflexivity | cbn in Hlen; lia].
  - destruct s as [| c1 s1]; [reflexivity |].
    destruct s1 as [| c2 s2]; [reflexivity |].
    cbn [String.length] in Hlen. rewrite hasArabicDigit_cons in Hs.
    apply orb_false_iff in Hs as [Hpair Hrest].
    rewrite convert_two, Hpair.
    now rewrite (IH (String c2 s2) ltac:(cbn [String.length]; lia) Hrest).
Qed.

(** X24.  The result of the conversion holds no Arabic-Indic digit, a text
    without one is returned as it is, and converting twice is converting
    once. *)
Theorem convertArabicToEnglish_removes_every_digit :
  forall s : string,
    hasArabicDigit (convertArabicToEnglish s) = false /\
    (hasArabicDigit s = false -> convertArabicToEnglish s = s) /\
    convertArabicToEnglish (convertArabicToEnglish s) =
      convertArabicToEnglish s.
Proof.
  intros s.
  destruct (convert_leaves_no_digit (String.length s) s (le_n _)) as [Hno _].
  split; [exact Hno |]. split.
  - apply (convert_without_digit (String.length s) s (le_n _)).
  - apply (convert_without_digit _ _ (le_n _) Hno).
Qed.

End Digits.

Section Weather.
Import WeatherService.
Local Open Scope Z_scope.

(** Follows the chain of tests of the two functions, then settles each
    path by the strings it returns or by arithmetic on the code. *)
Ltac settle_tests :=
  repeat match goal with
         | H : (_ && _)%bool = true |- _ =>
             apply andb_true_iff in H; destruct H
         | H : (_ && _)%bool = false |- _ =>
             apply andb_false_iff in H; destruct H
         | H : (_ =? _) = true |- _ => apply Z.eqb_eq in H
         | H : (_ =? _) = false |- _ => apply Z.eqb_neq in H
         | H : (_ <=? _) = true |- _ => apply Z.leb_le in H
         | H : (_ <=? _) = false |- _ => apply Z.leb_gt in H
         end;
  lia.

Ltac follow_tests :=
  unfold getWeatherDescription, getWeatherIcon;
  repeat match goal with
         | |- context [if ?b then _ else _] => destruct b eqn:?
         end;
  intros;
  first [ reflexivity | discriminate | congruence | exfalso; settle_tests ].

(** X25.  Every code that has a description of its own has an icon of its
    own: the thermometer is shown only with the text for an unknown
    code. *)
Theorem described_weather_has_an_icon :
  forall (code : Z) (isDay : bool),
    getWeatherDescription code <> "Tidak Diketahui"%string ->
    getWeatherIcon code isDay <> "🌡️"%string.
Proof. intros code isDay. follow_tests. Qed.

Lemma described_weather_has_an_icon_witness :
  getWeatherIcon 61 true <> "🌡️"%string.
Proof.
  apply (described_weather_has_an_icon 61 true). vm_compute. discriminate.
Defined.

(** X26.  The codes 56 to 60, 66, 67 and 71 to 77, freezing rain and snow
    among them, get an icon of their own and the description of an
    unknown code. *)
Theorem snow_has_an_icon_but_no_description :
  forall (code : Z) (isDay : bool),
    56 <= code <= 60 \/ 66 <= code <= 67 \/ 71 <= code <= 77 ->
    getWeatherDescription code = "Tidak Diketahui"%string /\
    getWeatherIcon code isDay <> "🌡️"%string.
Proof.
  intros code isDay Hcode. split; revert Hcode; follow_tests.
Qed.

Lemma snow_has_an_icon_but_no_description_witness :
  getWeatherDescription 73 = "Tidak Diketahui"%string /\
  getWeatherIcon 73 true <> "🌡️"%string.
Proof.
  apply (snow_has_an_icon_but_no_description 73 true). lia.
Defined.

(** X27.  Day and night differ in the icon for the codes 0 and 1 only. *)
Theorem day_and_night_icons_differ_only_when_clear :
  forall code : Z,
    getWeatherIcon code true <> getWeatherIcon code false <->
    code = 0 \/ code = 1.
Proof.
  intros code. split.
  - intros Hdiff.
    destruct (Z.eq_dec code 0) as [-> | H0]; [now left |].
    destruct (Z.eq_dec code 1) as [-> | H1]; [now right |].
    exfalso. apply Hdiff. unfold getWeatherIcon.
    now replace (code =? 0) with false by (symmetry; apply Z.eqb_neq; lia);
      replace (code =? 1) with false by (symmetry; apply Z.eqb_neq; lia).
  - intros [-> | ->]; vm_compute; discriminate.
Qed.

End Weather.
